(** * MethodComparator: equivalence of two versions of a method body

    A shallow embedding of hotspot/src/share/vm/prims/methodComparator.cpp:
    [methods_EMCP], [methods_switchable], [args_same] and
    [check_stack_and_locals_size], with the collaborators they call
    (BytecodeStream, constantPoolOop, constantTag, Bytes, BciMap) modelled
    as far as the comparator uses them. *)

From Stdlib Require Import ZArith List Bool Lia String Sorted Permutation.
From Stdlib Require Import Strings.Byte Strings.Ascii.
Import ListNotations.
Local Open Scope Z_scope.

(** ** Machine integers *)

Module Int.

(** Two's complement reading of the low [w] bits of [x]. *)
Definition signed (w : Z) (x : Z) : Z :=
  let m := x mod 2 ^ w in
  if m <? 2 ^ (w - 1) then m else m - 2 ^ w.

(** The C casts [(short)] and [(int)]. *)
Definition to_short (x : Z) : Z := signed 16 x.
Definition to_int (x : Z) : Z := signed 32 x.

(** [int + int], wrapping. *)
Definition add (a b : Z) : Z := to_int (a + b).
Definition sub (a b : Z) : Z := to_int (a - b).

(** [round_to(x, s)] of globalDefinitions.hpp, for [s] a power of two. *)
Definition round_to (x s : Z) : Z := ((x + s - 1) / s) * s.

End Int.

Definition jintSize : Z := 4.

(** ** Bytecodes *)

(** The values of [Bytecodes::Code] that the comparator names; they are the
    opcode numbers of the Java virtual machine. *)
Module Bytecodes.

Definition Code := Z.

Definition _illegal : Code := -1.
Definition _nop : Code := 0.
Definition _iconst_1 : Code := 4.
Definition _iconst_2 : Code := 5.
Definition _bipush : Code := 16.
Definition _sipush : Code := 17.
Definition _ldc : Code := 18.
Definition _ldc_w : Code := 19.
Definition _ldc2_w : Code := 20.
Definition _iload : Code := 21.
Definition _lload : Code := 22.
Definition _fload : Code := 23.
Definition _dload : Code := 24.
Definition _aload : Code := 25.
Definition _istore : Code := 54.
Definition _lstore : Code := 55.
Definition _fstore : Code := 56.
Definition _dstore : Code := 57.
Definition _astore : Code := 58.
Definition _iinc : Code := 132.
Definition _ifeq : Code := 153.
Definition _ifne : Code := 154.
Definition _iflt : Code := 155.
Definition _ifge : Code := 156.
Definition _ifgt : Code := 157.
Definition _ifle : Code := 158.
Definition _if_icmpeq : Code := 159.
Definition _if_icmpne : Code := 160.
Definition _if_icmplt : Code := 161.
Definition _if_icmpge : Code := 162.
Definition _if_icmpgt : Code := 163.
Definition _if_icmple : Code := 164.
Definition _if_acmpeq : Code := 165.
Definition _if_acmpne : Code := 166.
Definition _goto : Code := 167.
Definition _jsr : Code := 168.
Definition _ret : Code := 169.
Definition _tableswitch : Code := 170.
Definition _lookupswitch : Code := 171.
Definition _ireturn : Code := 172.
Definition _freturn : Code := 174.
Definition _return : Code := 177.
Definition _getstatic : Code := 178.
Definition _putstatic : Code := 179.
Definition _getfield : Code := 180.
Definition _putfield : Code := 181.
Definition _invokevirtual : Code := 182.
Definition _invokespecial : Code := 183.
Definition _invokestatic : Code := 184.
Definition _invokeinterface : Code := 185.
Definition _new : Code := 187.
Definition _anewarray : Code := 189.
Definition _checkcast : Code := 192.
Definition _instanceof : Code := 193.
Definition _wide : Code := 196.
Definition _multianewarray : Code := 197.
Definition _ifnull : Code := 198.
Definition _ifnonnull : Code := 199.
Definition _goto_w : Code := 200.
Definition _jsr_w : Code := 201.

(** A run of [case] labels falling through to one body. *)
Definition one_of (c : Code) (cases : list Code) : bool :=
  existsb (Z.eqb c) cases.

End Bytecodes.
Import Bytecodes.

(** ** Constant pool *)

(** [constantTag]: the tags the comparator asks about, and any other tag
    byte. *)
Inductive constantTag : Type :=
| JVM_CONSTANT_Integer
| JVM_CONSTANT_Float
| JVM_CONSTANT_Long
| JVM_CONSTANT_Double
| JVM_CONSTANT_Class
| JVM_CONSTANT_String
| JVM_CONSTANT_UnresolvedClass
| JVM_CONSTANT_UnresolvedString
| JVM_CONSTANT_UnresolvedClassInError
| JVM_CONSTANT_Other (tag : Z).

Module Tag.

Definition value (t : constantTag) : Z :=
  match t with
  | JVM_CONSTANT_Integer => 3
  | JVM_CONSTANT_Float => 4
  | JVM_CONSTANT_Long => 5
  | JVM_CONSTANT_Double => 6
  | JVM_CONSTANT_Class => 7
  | JVM_CONSTANT_String => 8
  | JVM_CONSTANT_UnresolvedClass => 100
  | JVM_CONSTANT_UnresolvedString => 102
  | JVM_CONSTANT_UnresolvedClassInError => 104
  | JVM_CONSTANT_Other tag => tag
  end.

Definition is_int (t : constantTag) : bool := value t =? 3.
Definition is_float (t : constantTag) : bool := value t =? 4.
Definition is_long (t : constantTag) : bool := value t =? 5.
Definition is_klass (t : constantTag) : bool := value t =? 7.
Definition is_string (t : constantTag) : bool := value t =? 8.
Definition is_unresolved_klass (t : constantTag) : bool :=
  (value t =? 100) || (value t =? 104).
Definition is_unresolved_string (t : constantTag) : bool := value t =? 102.

End Tag.

(** A [symbolOop]: symbols are interned, so comparing the pointers compares
    the names. *)
Definition symbol := string.
Definition symbol_ne (a b : symbol) : bool := negb (String.eqb a b).

(** [jfloat] and [jdouble] are kept as their bit patterns; [!=] on them is the
    IEEE 754 comparison, under which a NaN differs from everything, itself
    included, and the two zeros are equal. *)
Module IEEE.

Record format := { width : Z; mantissa : Z }.
Definition binary32 : format := {| width := 32; mantissa := 23 |}.
Definition binary64 : format := {| width := 64; mantissa := 52 |}.

(** The bits without the sign. *)
Definition magnitude (f : format) (bits : Z) : Z :=
  (bits mod 2 ^ width f) mod 2 ^ (width f - 1).

(** Exponent all ones, with nothing in the mantissa. *)
Definition infinity (f : format) : Z :=
  2 ^ (width f - 1) - 2 ^ mantissa f.

Definition is_nan (f : format) (bits : Z) : bool :=
  infinity f <? magnitude f bits.

Definition is_zero (f : format) (bits : Z) : bool :=
  magnitude f bits =? 0.

Definition eq (f : format) (a b : Z) : bool :=
  negb (is_nan f a) && negb (is_nan f b) &&
  ((a mod 2 ^ width f =? b mod 2 ^ width f) || (is_zero f a && is_zero f b)).

Definition ne (f : format) (a b : Z) : bool := negb (eq f a b).

End IEEE.

Definition jfloat_ne : Z -> Z -> bool := IEEE.ne IEEE.binary32.
Definition jdouble_ne : Z -> Z -> bool := IEEE.ne IEEE.binary64.

(** [strcmp(a, b) != 0] on the C strings the pool hands out. *)
Definition strcmp_ne (a b : string) : bool := negb (String.eqb a b).

(** Modelled from the spec: the Constant Pool Oracle ([constantPoolOop]),
    which resolves an operand index to a tag, a class name, the (owner, name,
    descriptor) triple of a member or a literal value, for resolved and
    unresolved entries alike. *)
Record constantPoolOop : Type := mkConstantPool {
  tag_at : Z -> constantTag;
  klass_at_noresolve : Z -> symbol;
  klass_ref_at_noresolve : Z -> symbol;
  name_ref_at : Z -> symbol;
  signature_ref_at : Z -> symbol;
  int_at : Z -> Z;
  float_at : Z -> Z;
  long_at : Z -> Z;
  double_at : Z -> Z;
  string_at_noresolve : Z -> string
}.

(** ** Method bodies and the bytecode cursor *)

(** One decoded instruction: its first byte and the bytes after it, up to
    the next instruction. A [wide] prefix is the first byte of the
    instruction it widens. *)
Record Instruction : Type := mkInsn {
  insn_head : byte;
  insn_tail : list byte
}.

Definition insn_bytes (i : Instruction) : list byte :=
  insn_head i :: insn_tail i.

Definition insn_length (i : Instruction) : Z :=
  Z.of_nat (List.length (insn_bytes i)).

Definition u1 (b : byte) : Z := Z.of_N (Byte.to_N b).

(** A [methodOop], as far as the comparator reads it. The code is kept as
    the instruction sequence its cursor delivers. *)
Record methodOop : Type := mkMethod {
  code : list Instruction;
  max_stack : Z;
  max_locals : Z;
  size_of_parameters : Z;
  constants : constantPoolOop
}.

Fixpoint code_length (body : list Instruction) : Z :=
  match body with
  | [] => 0
  | i :: rest => insn_length i + code_length rest
  end.

Definition code_size (m : methodOop) : Z := code_length (code m).

(** Modelled from the spec: the Bytecode Cursor ([BytecodeStream]), which
    decodes a method body into (opcode, position, operand bytes) and offers
    [next], [bci], [bcp], [is_wide] and the operand readers. [bcp] addresses
    the first byte of the current instruction, the [wide] prefix when there is
    one; the bytes readable from it are those of that instruction. *)
Record BytecodeStream : Type := mkStream {
  _bci : Z;
  _next_bci : Z;
  _insn : list byte;
  _is_wide : bool;
  _todo : list Instruction
}.

Module Stream.

Definition init (m : methodOop) : BytecodeStream :=
  {| _bci := 0; _next_bci := 0; _insn := []; _is_wide := false;
     _todo := code m |}.

(** The opcode [next] reports for an instruction: the widened opcode behind
    a [wide] prefix. *)
Definition java_code (i : Instruction) : Code :=
  if u1 (insn_head i) =? _wide
  then u1 (nth 0 (insn_tail i) x00)
  else u1 (insn_head i).

Definition wide_prefixed (i : Instruction) : bool :=
  u1 (insn_head i) =? _wide.

(** The cursor once [next] has read instruction [i] at [pos], with [rest]
    still to come. *)
Definition fetch (pos : Z) (i : Instruction) (rest : list Instruction)
  : BytecodeStream :=
  {| _bci := pos; _next_bci := pos + insn_length i; _insn := insn_bytes i;
     _is_wide := wide_prefixed i; _todo := rest |}.

Definition next (s : BytecodeStream) : Code * BytecodeStream :=
  match _todo s with
  | [] =>
      (_illegal,
       {| _bci := _next_bci s; _next_bci := _next_bci s; _insn := [];
          _is_wide := _is_wide s; _todo := [] |})
  | i :: rest => (java_code i, fetch (_next_bci s) i rest)
  end.

Definition bci (s : BytecodeStream) : Z := _bci s.
Definition is_wide (s : BytecodeStream) : bool := _is_wide s.

(** [bcp()[k]]. *)
Definition bcp (s : BytecodeStream) (k : Z) : Z :=
  if k <? 0 then 0 else u1 (nth (Z.to_nat k) (_insn s) x00).

(** [Bytes::get_Java_u2(bcp() + k)] and [Bytes::get_Java_u4(bcp() + k)]:
    big-endian reads. *)
Definition get_Java_u2 (s : BytecodeStream) (k : Z) : Z :=
  bcp s k * 256 + bcp s (k + 1).

Definition get_Java_u4 (s : BytecodeStream) (k : Z) : Z :=
  ((bcp s k * 256 + bcp s (k + 1)) * 256 + bcp s (k + 2)) * 256
  + bcp s (k + 3).

Definition get_index (s : BytecodeStream) : Z :=
  if is_wide s then get_Java_u2 s 2 else bcp s 1.

Definition get_index_big (s : BytecodeStream) : Z := get_Java_u2 s 1.

(** For the field and invoke instructions that call it, [get_index_int] is
    [get_index_big]. *)
Definition get_index_int (s : BytecodeStream) : Z := get_index_big s.

(** [next_bcp() - bcp()]. *)
Definition insn_size (s : BytecodeStream) : Z := _next_bci s - _bci s.

(** The offset from [bcp()] of [round_to(bcp() + 1, jintSize)]; the code of
    a method starts at an aligned address. *)
Definition aligned (s : BytecodeStream) : Z :=
  Int.round_to (bci s + 1) jintSize - bci s.

(** [memcmp(a, b, n) != 0] on the bytes at two cursors. *)
Definition memcmp_ne (a b : BytecodeStream) (n : Z) : bool :=
  negb (forallb (fun k => bcp a (Z.of_nat k) =? bcp b (Z.of_nat k))
                (seq 0 (Z.to_nat n))).

End Stream.

(** ** Position map *)

(** Modelled from the spec: the Position Map ([BciMap]), an ordered list of
    fragments (old divergence bci, new fragment start, new fragment end).
    [store_fragment_location] appends one; [new_bci_for_old] adds to an old
    bci the inserted length of every fragment whose divergence bci precedes
    it; [old_and_new_locations_same] holds when that translation is the new
    bci. *)
Record Fragment : Type := mkFragment {
  old_bci : Z;
  new_st_bci : Z;
  new_end_bci : Z
}.

Definition BciMap := list Fragment.

Module Map.

Definition store_fragment_location (m : BciMap) (old_bci new_st new_end : Z)
  : BciMap :=
  m ++ [mkFragment old_bci new_st new_end].

Definition inserted_before (m : BciMap) (bci : Z) : Z :=
  fold_right
    (fun f acc =>
       if old_bci f <? bci then (new_end_bci f - new_st_bci f) + acc else acc)
    0 m.

Definition new_bci_for_old (m : BciMap) (bci : Z) : Z :=
  bci + inserted_before m bci.

Definition old_and_new_locations_same (m : BciMap) (old_dest new_dest : Z)
  : bool :=
  new_bci_for_old m old_dest =? new_dest.

End Map.

(** ** The comparator *)

(** The static fields of [MethodComparator]: the state one comparison
    shares between the scan and [args_same]. *)
Record MethodComparator : Type := mkComparator {
  _s_old : BytecodeStream;
  _s_new : BytecodeStream;
  _old_cp : constantPoolOop;
  _new_cp : constantPoolOop;
  _bci_map : BciMap;
  _switchable_test : bool;
  _fwd_jmps : list Z
}.

(** [MethodComparator::check_stack_and_locals_size] *)
Definition check_stack_and_locals_size (old_method new_method : methodOop)
  : Z :=
  if negb (max_stack old_method =? max_stack new_method) then 1
  else if negb (max_locals old_method =? max_locals new_method) then 2
  else if negb (size_of_parameters old_method =? size_of_parameters new_method)
  then 3
  else 0.

(** The body shared by the two branch cases of [args_same], which differ in
    the width of the offset only. The result is the returned flag and
    [_fwd_jmps] as the call leaves it. *)
Definition branch_same (st : MethodComparator) (old_ofs new_ofs : Z)
  : bool * list Z :=
  if _switchable_test st then
    let old_dest := Int.add (Stream.bci (_s_old st)) old_ofs in
    let new_dest := Int.add (Stream.bci (_s_new st)) new_ofs in
    if (old_ofs <? 0) && (new_ofs <? 0) then
      if negb (Map.old_and_new_locations_same (_bci_map st) old_dest new_dest)
      then (false, _fwd_jmps st)
      else (true, _fwd_jmps st)
    else if (old_ofs >? 0) && (new_ofs >? 0) then
      (true, _fwd_jmps st ++ [old_dest; new_dest])
    else (false, _fwd_jmps st)
  else
    if negb (old_ofs =? new_ofs) then (false, _fwd_jmps st)
    else (true, _fwd_jmps st).

Section Switches.

Variables s_old s_new : BytecodeStream.
(** [aligned_bcp_old] and [aligned_bcp_new], as offsets from [bcp()]. *)
Variables aligned_bcp_old aligned_bcp_new : Z.

Definition int_at_old (k : Z) : Z :=
  Int.to_int (Stream.get_Java_u4 s_old (aligned_bcp_old + k * jintSize)).
Definition int_at_new (k : Z) : Z :=
  Int.to_int (Stream.get_Java_u4 s_new (aligned_bcp_new + k * jintSize)).

(** The [for] loop of the [lookupswitch] case, from index [i] for [n] more
    rounds. *)
Fixpoint lookupswitch_pairs (n : nat) (i : Z) (fwd_jmps : list Z)
  : bool * list Z :=
  match n with
  | O => (true, fwd_jmps)
  | S n' =>
      let match_old := int_at_old (2 + 2 * i) in
      let match_new := int_at_new (2 + 2 * i) in
      if negb (match_old =? match_new) then (false, fwd_jmps)
      else
        let ofs_old := int_at_old (2 + 2 * i + 1) in
        let ofs_new := int_at_new (2 + 2 * i + 1) in
        lookupswitch_pairs n' (i + 1)
          (fwd_jmps ++ [Int.add (Stream.bci s_old) ofs_old;
                        Int.add (Stream.bci s_new) ofs_new])
  end.

(** The [for] loop of the [tableswitch] case. *)
Fixpoint tableswitch_slots (n : nat) (i : Z) (fwd_jmps : list Z) : list Z :=
  match n with
  | O => fwd_jmps
  | S n' =>
      let ofs_old := int_at_old (3 + i) in
      let ofs_new := int_at_new (3 + i) in
      tableswitch_slots n' (i + 1)
        (fwd_jmps ++ [Int.add (Stream.bci s_old) ofs_old;
                      Int.add (Stream.bci s_new) ofs_new])
  end.

End Switches.

(** The [lookupswitch] / [tableswitch] case of [args_same]. *)
Definition switch_same (st : MethodComparator) (c_old : Code)
  : bool * list Z :=
  let s_old := _s_old st in
  let s_new := _s_new st in
  if _switchable_test st then
    let aligned_bcp_old := Stream.aligned s_old in
    let aligned_bcp_new := Stream.aligned s_new in
    let default_old := int_at_old s_old aligned_bcp_old 0 in
    let default_new := int_at_new s_new aligned_bcp_new 0 in
    let fwd_jmps :=
      _fwd_jmps st ++ [Int.add (Stream.bci s_old) default_old;
                       Int.add (Stream.bci s_new) default_new] in
    if c_old =? _lookupswitch then
      let npairs_old := int_at_old s_old aligned_bcp_old 1 in
      let npairs_new := int_at_new s_new aligned_bcp_new 1 in
      if negb (npairs_old =? npairs_new) then (false, fwd_jmps)
      else
        lookupswitch_pairs s_old s_new aligned_bcp_old aligned_bcp_new
          (Z.to_nat npairs_old) 0 fwd_jmps
    else if c_old =? _tableswitch then
      let lo_old := int_at_old s_old aligned_bcp_old 1 in
      let lo_new := int_at_new s_new aligned_bcp_new 1 in
      if negb (lo_old =? lo_new) then (false, fwd_jmps)
      else
        let hi_old := int_at_old s_old aligned_bcp_old 2 in
        let hi_new := int_at_new s_new aligned_bcp_new 2 in
        if negb (hi_old =? hi_new) then (false, fwd_jmps)
        else
          (true,
           tableswitch_slots s_old s_new aligned_bcp_old aligned_bcp_new
             (Z.to_nat (Int.add (Int.sub hi_old lo_old) 1)) 0 fwd_jmps)
    else (true, fwd_jmps)
  else
    let len_old := Stream.insn_size s_old in
    let len_new := Stream.insn_size s_new in
    if negb (len_old =? len_new) then (false, _fwd_jmps st)
    else if Stream.memcmp_ne s_old s_new len_old then (false, _fwd_jmps st)
    else (true, _fwd_jmps st).

(** [MethodComparator::args_same]. The result is the returned flag and
    [_fwd_jmps] as the call leaves it; nothing else of the state changes. *)
Definition args_same (st : MethodComparator) (c_old c_new : Code)
  : bool * list Z :=
  let s_old := _s_old st in
  let s_new := _s_new st in
  let old_cp := _old_cp st in
  let new_cp := _new_cp st in
  let fwd_jmps := _fwd_jmps st in
  if one_of c_old [_new; _anewarray; _multianewarray; _checkcast; _instanceof]
  then
    let cpi_old := Stream.get_index_big s_old in
    let cpi_new := Stream.get_index_big s_new in
    if symbol_ne (klass_at_noresolve old_cp cpi_old)
                 (klass_at_noresolve new_cp cpi_new)
    then (false, fwd_jmps)
    else if (c_old =? _multianewarray)
            && negb (Stream.bcp s_old 3 =? Stream.bcp s_new 3)
    then (false, fwd_jmps)
    else (true, fwd_jmps)
  else if one_of c_old [_getstatic; _putstatic; _getfield; _putfield;
                        _invokevirtual; _invokespecial; _invokestatic;
                        _invokeinterface]
  then
    let cpci_old := Stream.get_index_int s_old in
    let cpci_new := Stream.get_index_int s_new in
    if symbol_ne (klass_ref_at_noresolve old_cp cpci_old)
                 (klass_ref_at_noresolve new_cp cpci_new)
       || symbol_ne (name_ref_at old_cp cpci_old) (name_ref_at new_cp cpci_new)
       || symbol_ne (signature_ref_at old_cp cpci_old)
                    (signature_ref_at new_cp cpci_new)
    then (false, fwd_jmps)
    else (true, fwd_jmps)
  else if one_of c_old [_ldc; _ldc_w] then
    let cpi_old :=
      if c_old =? _ldc then Stream.bcp s_old 1
      else Stream.get_index_big s_old in
    let cpi_new :=
      if c_old =? _ldc then Stream.bcp s_new 1
      else Stream.get_index_big s_new in
    let tag_old := tag_at old_cp cpi_old in
    let tag_new := tag_at new_cp cpi_new in
    if Tag.is_int tag_old || Tag.is_float tag_old then
      if negb (Tag.value tag_old =? Tag.value tag_new) then (false, fwd_jmps)
      else if Tag.is_int tag_old then
        if negb (int_at old_cp cpi_old =? int_at new_cp cpi_new)
        then (false, fwd_jmps)
        else (true, fwd_jmps)
      else
        if jfloat_ne (float_at old_cp cpi_old) (float_at new_cp cpi_new)
        then (false, fwd_jmps)
        else (true, fwd_jmps)
    else if Tag.is_string tag_old || Tag.is_unresolved_string tag_old then
      if negb (Tag.is_unresolved_string tag_new || Tag.is_string tag_new)
      then (false, fwd_jmps)
      else if strcmp_ne (string_at_noresolve old_cp cpi_old)
                        (string_at_noresolve new_cp cpi_new)
      then (false, fwd_jmps)
      else (true, fwd_jmps)
    else
      if negb (Tag.is_unresolved_klass tag_new || Tag.is_klass tag_new)
      then (false, fwd_jmps)
      else if symbol_ne (klass_at_noresolve old_cp cpi_old)
                        (klass_at_noresolve new_cp cpi_new)
      then (false, fwd_jmps)
      else (true, fwd_jmps)
  else if c_old =? _ldc2_w then
    let cpi_old := Stream.get_index_big s_old in
    let cpi_new := Stream.get_index_big s_new in
    let tag_old := tag_at old_cp cpi_old in
    let tag_new := tag_at new_cp cpi_new in
    if negb (Tag.value tag_old =? Tag.value tag_new) then (false, fwd_jmps)
    else if Tag.is_long tag_old then
      if negb (long_at old_cp cpi_old =? long_at new_cp cpi_new)
      then (false, fwd_jmps)
      else (true, fwd_jmps)
    else
      if jdouble_ne (double_at old_cp cpi_old) (double_at new_cp cpi_new)
      then (false, fwd_jmps)
      else (true, fwd_jmps)
  else if c_old =? _bipush then
    if negb (Stream.bcp s_old 1 =? Stream.bcp s_new 1) then (false, fwd_jmps)
    else (true, fwd_jmps)
  else if c_old =? _sipush then
    if negb (Stream.get_index_big s_old =? Stream.get_index_big s_new)
    then (false, fwd_jmps)
    else (true, fwd_jmps)
  else if one_of c_old [_aload; _astore; _dload; _dstore; _fload; _fstore;
                        _iload; _istore; _lload; _lstore; _ret]
  then
    if negb (Bool.eqb (Stream.is_wide s_old) (Stream.is_wide s_new))
    then (false, fwd_jmps)
    else if negb (Stream.get_index s_old =? Stream.get_index s_new)
    then (false, fwd_jmps)
    else (true, fwd_jmps)
  else if one_of c_old [_goto; _if_acmpeq; _if_acmpne; _if_icmpeq; _if_icmpne;
                        _if_icmplt; _if_icmpge; _if_icmpgt; _if_icmple;
                        _ifeq; _ifne; _iflt; _ifge; _ifgt; _ifle;
                        _ifnonnull; _ifnull; _jsr]
  then
    let old_ofs := Int.to_short (Stream.get_index_big s_old) in
    let new_ofs := Int.to_short (Stream.get_index_big s_new) in
    branch_same st old_ofs new_ofs
  else if c_old =? _iinc then
    if negb (Bool.eqb (Stream.is_wide s_old) (Stream.is_wide s_new))
    then (false, fwd_jmps)
    else if negb (Stream.is_wide s_old) then
      if negb (Stream.get_index_big s_old =? Stream.get_index_big s_new)
      then (false, fwd_jmps)
      else (true, fwd_jmps)
    else
      if negb (Stream.get_Java_u4 s_old 1 =? Stream.get_Java_u4 s_new 1)
      then (false, fwd_jmps)
      else (true, fwd_jmps)
  else if one_of c_old [_goto_w; _jsr_w] then
    let old_ofs := Int.to_int (Stream.get_Java_u4 s_old 1) in
    let new_ofs := Int.to_int (Stream.get_Java_u4 s_new 1) in
    branch_same st old_ofs new_ofs
  else if one_of c_old [_lookupswitch; _tableswitch] then
    switch_same st c_old
  else (true, fwd_jmps).

(** The comparison state while both cursors stand on an instruction. *)
Definition comparing (old_cp new_cp : constantPoolOop) (switchable : bool)
  (s_old s_new : BytecodeStream) (bci_map : BciMap) (fwd_jmps : list Z)
  : MethodComparator :=
  {| _s_old := s_old; _s_new := s_new; _old_cp := old_cp; _new_cp := new_cp;
     _bci_map := bci_map; _switchable_test := switchable;
     _fwd_jmps := fwd_jmps |}.

Section Scan.

Variables old_cp new_cp : constantPoolOop.

(** The [while] loop of [methods_EMCP]. The old cursor is given by what it
    has still to read, [todo_old], from position [pos_old]; each round
    starts with its [next()]. With [_switchable_test] off, [args_same]
    uses neither the position map nor the pending jumps; both are given
    empty. *)
Fixpoint EMCP_loop (todo_old : list Instruction) (pos_old : Z)
  (s_new : BytecodeStream) : bool :=
  match todo_old with
  | [] => true
  | i :: rest =>
      let c_old := Stream.java_code i in
      let s_old := Stream.fetch pos_old i rest in
      if c_old >=? 0 then
        let '(c_new, s_new) := Stream.next s_new in
        if (c_new <? 0) || negb (c_old =? c_new) then false
        else if negb (fst (args_same
                             (comparing old_cp new_cp false s_old s_new [] [])
                             c_old c_new))
        then false
        else EMCP_loop rest (_next_bci s_old) s_new
      else true
  end.

(** [c_old == c_new && args_same(c_old, c_new)], with [_fwd_jmps] as the
    test leaves it. *)
Definition same_insn (s_old s_new : BytecodeStream) (bci_map : BciMap)
  (fwd_jmps : list Z) (c_old c_new : Code) : bool * list Z :=
  if c_old =? c_new then
    args_same (comparing old_cp new_cp true s_old s_new bci_map fwd_jmps)
              c_old c_new
  else (false, fwd_jmps).

(** The [do ... while] loop of [methods_switchable], which moves the new
    cursor alone until it stands on an instruction that matches the old
    one. The new cursor is given by what it has still to read, from
    position [pos_new]. The result is the cursor at the match, if there is
    one, and [_fwd_jmps]. *)
Fixpoint find_match (s_old : BytecodeStream) (c_old : Code)
  (bci_map : BciMap) (todo_new : list Instruction) (pos_new : Z)
  (fwd_jmps : list Z) : option BytecodeStream * list Z :=
  match todo_new with
  | [] => (None, fwd_jmps)
  | i :: rest =>
      let c_new := Stream.java_code i in
      let s_new := Stream.fetch pos_new i rest in
      let '(same, fwd_jmps) :=
        same_insn s_old s_new bci_map fwd_jmps c_old c_new in
      if same then (Some s_new, fwd_jmps)
      else if c_new >=? 0 then
        find_match s_old c_old bci_map rest (_next_bci s_new) fwd_jmps
      else (None, fwd_jmps)
  end.

(** The [while] loop of [methods_switchable]. The result is [false] where
    the loop returns false and [true] where it runs to its end, with the
    position map and [_fwd_jmps] at that point. *)
Fixpoint switchable_loop (todo_old : list Instruction) (pos_old : Z)
  (s_new : BytecodeStream) (bci_map : BciMap) (fwd_jmps : list Z)
  : bool * BciMap * list Z :=
  match todo_old with
  | [] => (true, bci_map, fwd_jmps)
  | i :: rest =>
      let c_old := Stream.java_code i in
      let s_old := Stream.fetch pos_old i rest in
      if c_old >=? 0 then
        let '(c_new, s_new) := Stream.next s_new in
        if c_new <? 0 then (false, bci_map, fwd_jmps)
        else
          let '(same, fwd_jmps) :=
            same_insn s_old s_new bci_map fwd_jmps c_old c_new in
          if negb same then
            let old_bci := Stream.bci s_old in
            let new_st_bci := Stream.bci s_new in
            match find_match s_old c_old bci_map (_todo s_new)
                    (_next_bci s_new) fwd_jmps with
            | (None, fwd_jmps) => (false, bci_map, fwd_jmps)
            | (Some s_new, fwd_jmps) =>
                let new_end_bci := Stream.bci s_new in
                switchable_loop rest (_next_bci s_old) s_new
                  (Map.store_fragment_location bci_map old_bci new_st_bci
                     new_end_bci)
                  fwd_jmps
            end
          else switchable_loop rest (_next_bci s_old) s_new bci_map fwd_jmps
      else (true, bci_map, fwd_jmps)
  end.

End Scan.

(** The [for] loop over the forward jumps: pair [i] of [fwd_jmps], for [n]
    more rounds. *)
Fixpoint test_fwd_jmps (bci_map : BciMap) (fwd_jmps : list Z) (n : nat)
  (i : Z) : bool :=
  match n with
  | O => true
  | S n' =>
      if negb (Map.old_and_new_locations_same bci_map
                 (nth (Z.to_nat (i * 2)) fwd_jmps 0)
                 (nth (Z.to_nat (i * 2 + 1)) fwd_jmps 0))
      then false
      else test_fwd_jmps bci_map fwd_jmps n' (i + 1)
  end.

(** [MethodComparator::methods_EMCP] *)
Definition methods_EMCP (old_method new_method : methodOop) : bool :=
  if negb (code_size old_method =? code_size new_method) then false
  else if negb (check_stack_and_locals_size old_method new_method =? 0)
  then false
  else
    EMCP_loop (constants old_method) (constants new_method)
      (_todo (Stream.init old_method)) (_next_bci (Stream.init old_method))
      (Stream.init new_method).

(** [MethodComparator::methods_switchable]: the returned flag, and
    [bci_map] as the call leaves it. An [int] used as a condition is true
    when it is not zero. *)
Definition methods_switchable (old_method new_method : methodOop)
  (bci_map : BciMap) : bool * BciMap :=
  if code_size old_method >? code_size new_method then (false, bci_map)
  else if negb (negb (check_stack_and_locals_size old_method new_method =? 0))
  then (false, bci_map)
  else
    let '(scanned, bci_map, fwd_jmps) :=
      switchable_loop (constants old_method) (constants new_method)
        (_todo (Stream.init old_method)) (_next_bci (Stream.init old_method))
        (Stream.init new_method) bci_map [] in
    if negb scanned then (false, bci_map)
    else
      if test_fwd_jmps bci_map fwd_jmps
           (Z.to_nat (Z.of_nat (List.length fwd_jmps) / 2)) 0
      then (true, bci_map)
      else (false, bci_map).

(** ** Properties of position maps *)

(** The inserted span of a fragment is not empty and starts inside the new
    code. *)
Definition fragment_nonempty (f : Fragment) : Prop :=
  0 <= new_st_bci f /\ new_st_bci f < new_end_bci f.

(** [f] diverges before [g] in the old code and ends before [g] starts in
    the new code. *)
Definition fragment_before (f g : Fragment) : Prop :=
  old_bci f < old_bci g /\ new_end_bci f <= new_st_bci g.

Definition fragments_ordered (m : BciMap) : Prop :=
  Forall fragment_nonempty m /\ StronglySorted fragment_before m.

(** What the scan keeps true of the map between two rounds: every fragment
    in it diverged before the old position and ends at or before the new
    position. *)
Definition behind (pos_old pos_new : Z) (f : Fragment) : Prop :=
  old_bci f < pos_old /\ new_end_bci f <= pos_new.

(** ** Branch instructions *)

Definition is_short_branch (c : Code) : bool :=
  one_of c [_goto; _if_acmpeq; _if_acmpne; _if_icmpeq; _if_icmpne;
            _if_icmplt; _if_icmpge; _if_icmpgt; _if_icmple;
            _ifeq; _ifne; _iflt; _ifge; _ifgt; _ifle;
            _ifnonnull; _ifnull; _jsr].

Definition is_wide_branch (c : Code) : bool := one_of c [_goto_w; _jsr_w].

(** The signed offset a branch instruction carries. *)
Definition branch_offset (c : Code) (s : BytecodeStream) : Z :=
  if is_wide_branch c then Int.to_int (Stream.get_Java_u4 s 1)
  else Int.to_short (Stream.get_index_big s).

(** The absolute target of the branch at the cursor. *)
Definition branch_dest (c : Code) (s : BytecodeStream) : Z :=
  Int.add (Stream.bci s) (branch_offset c s).

(** The rule for branches with backward meaning an offset of zero or less:
    such a pair is decided by the position map. *)
Definition backward_is_nonpositive (st : MethodComparator) (c : Code)
  : Prop :=
  _switchable_test st = true ->
  branch_offset c (_s_old st) <= 0 ->
  branch_offset c (_s_new st) <= 0 ->
  args_same st c c =
  (Map.old_and_new_locations_same (_bci_map st)
     (branch_dest c (_s_old st)) (branch_dest c (_s_new st)),
   _fwd_jmps st).

(** ** The operand of [ldc] and [ldc_w] *)

Definition ldc_index (c : Code) (s : BytecodeStream) : Z :=
  if c =? _ldc then Stream.bcp s 1 else Stream.get_index_big s.

(** ** Literals that compare equal to themselves *)

(** What [args_same] asks of the operand of a load of a constant before it
    accepts the instruction against itself: for [ldc] and [ldc_w] an int, a
    float that is not a NaN, a string or a class; for [ldc2_w] a long, or a
    double that is not a NaN. Other instructions carry no such demand. *)
Definition literal_comparable (cp : constantPoolOop) (s : BytecodeStream)
  (c : Code) : bool :=
  if one_of c [_ldc; _ldc_w] then
    let cpi := ldc_index c s in
    let tag := tag_at cp cpi in
    if Tag.is_int tag then true
    else if Tag.is_float tag
    then negb (IEEE.is_nan IEEE.binary32 (float_at cp cpi))
    else if Tag.is_string tag || Tag.is_unresolved_string tag then true
    else Tag.is_unresolved_klass tag || Tag.is_klass tag
  else if c =? _ldc2_w then
    let cpi := Stream.get_index_big s in
    Tag.is_long (tag_at cp cpi)
    || negb (IEEE.is_nan IEEE.binary64 (double_at cp cpi))
  else true.

(** The same of an instruction, wherever it stands. *)
Definition insn_comparable (cp : constantPoolOop) (i : Instruction) : bool :=
  literal_comparable cp (Stream.fetch 0 i []) (Stream.java_code i).

(** ** Method bodies with more code at the end *)

Definition append_code (m : methodOop) (extra : list Instruction)
  : methodOop :=
  {| code := code m ++ extra; max_stack := max_stack m;
     max_locals := max_locals m;
     size_of_parameters := size_of_parameters m;
     constants := constants m |}.

(** The cursor with [extra] behind what it has still to read. *)
Definition extend (s : BytecodeStream) (extra : list Instruction)
  : BytecodeStream :=
  {| _bci := _bci s; _next_bci := _next_bci s; _insn := _insn s;
     _is_wide := _is_wide s; _todo := _todo s ++ extra |}.

(** ** Concrete bodies *)

Module Sample.

(** A pool with nothing in it that the sample code refers to. *)
Definition no_constants : constantPoolOop :=
  {| tag_at := fun _ => JVM_CONSTANT_Other 0;
     klass_at_noresolve := fun _ => EmptyString;
     klass_ref_at_noresolve := fun _ => EmptyString;
     name_ref_at := fun _ => EmptyString;
     signature_ref_at := fun _ => EmptyString;
     int_at := fun _ => 0;
     float_at := fun _ => 0;
     long_at := fun _ => 0;
     double_at := fun _ => 0;
     string_at_noresolve := fun _ => EmptyString |}.

Definition nop : Instruction := mkInsn x00 [].
Definition iconst_1 : Instruction := mkInsn x04 [].
Definition iconst_2 : Instruction := mkInsn x05 [].
Definition ireturn : Instruction := mkInsn xac [].
Definition freturn : Instruction := mkInsn xae [].
Definition ldc (index : byte) : Instruction := mkInsn x12 [index].
Definition goto (hi lo : byte) : Instruction := mkInsn xa7 [hi; lo].
Definition iinc (index const : byte) : Instruction :=
  mkInsn x84 [index; const].
Definition newarray (atype : byte) : Instruction := mkInsn xbc [atype].
Definition wide_iinc (index_hi index_lo const_hi const_lo : byte)
  : Instruction :=
  mkInsn xc4 [x84; index_hi; index_lo; const_hi; const_lo].

(** A method with one stack slot, one local and no parameters. *)
Definition method (body : list Instruction) (cp : constantPoolOop)
  : methodOop :=
  {| code := body; max_stack := 1; max_locals := 1; size_of_parameters := 0;
     constants := cp |}.

Definition with_max_stack (m : methodOop) (n : Z) : methodOop :=
  {| code := code m; max_stack := n; max_locals := max_locals m;
     size_of_parameters := size_of_parameters m; constants := constants m |}.

Definition A : methodOop := method [iconst_1; ireturn] no_constants.
Definition B : methodOop := method [iconst_1; ireturn] no_constants.
Definition B' : methodOop := method [iconst_1; nop; ireturn] no_constants.
Definition B'' : methodOop := method [iconst_2; ireturn] no_constants.

(** [A] followed by an instruction that no path reaches. *)
Definition A_then_nop : methodOop :=
  method [iconst_1; ireturn; nop] no_constants.

(** A pool whose entry 1 is the given literal. *)
Definition int_pool (v : Z) : constantPoolOop :=
  {| tag_at := fun i => if i =? 1 then JVM_CONSTANT_Integer
                        else JVM_CONSTANT_Other 0;
     klass_at_noresolve := fun _ => EmptyString;
     klass_ref_at_noresolve := fun _ => EmptyString;
     name_ref_at := fun _ => EmptyString;
     signature_ref_at := fun _ => EmptyString;
     int_at := fun i => if i =? 1 then v else 0;
     float_at := fun _ => 0;
     long_at := fun _ => 0;
     double_at := fun _ => 0;
     string_at_noresolve := fun _ => EmptyString |}.

Definition float_pool (bits : Z) : constantPoolOop :=
  {| tag_at := fun i => if i =? 1 then JVM_CONSTANT_Float
                        else JVM_CONSTANT_Other 0;
     klass_at_noresolve := fun _ => EmptyString;
     klass_ref_at_noresolve := fun _ => EmptyString;
     name_ref_at := fun _ => EmptyString;
     signature_ref_at := fun _ => EmptyString;
     int_at := fun _ => 0;
     float_at := fun i => if i =? 1 then bits else 0;
     long_at := fun _ => 0;
     double_at := fun _ => 0;
     string_at_noresolve := fun _ => EmptyString |}.

Definition string_pool (tag : constantTag) (content : string)
  : constantPoolOop :=
  {| tag_at := fun i => if i =? 1 then tag else JVM_CONSTANT_Other 0;
     klass_at_noresolve := fun _ => EmptyString;
     klass_ref_at_noresolve := fun _ => EmptyString;
     name_ref_at := fun _ => EmptyString;
     signature_ref_at := fun _ => EmptyString;
     int_at := fun _ => 0;
     float_at := fun _ => 0;
     long_at := fun _ => 0;
     double_at := fun _ => 0;
     string_at_noresolve := fun i => if i =? 1 then content else EmptyString |}.

(** A pool whose entry [index] is a class of the given name. *)
Definition class_pool (index : Z) (name : string) : constantPoolOop :=
  {| tag_at := fun i => if i =? index then JVM_CONSTANT_Class
                        else JVM_CONSTANT_Other 0;
     klass_at_noresolve := fun i => if i =? index then name else EmptyString;
     klass_ref_at_noresolve := fun _ => EmptyString;
     name_ref_at := fun _ => EmptyString;
     signature_ref_at := fun _ => EmptyString;
     int_at := fun _ => 0;
     float_at := fun _ => 0;
     long_at := fun _ => 0;
     double_at := fun _ => 0;
     string_at_noresolve := fun _ => EmptyString |}.

(** A pool whose entry [index] is a member of the given owner, name and
    signature. *)
Definition member_pool (index : Z) (owner name signature : string)
  : constantPoolOop :=
  {| tag_at := fun _ => JVM_CONSTANT_Other 0;
     klass_at_noresolve := fun _ => EmptyString;
     klass_ref_at_noresolve :=
       fun i => if i =? index then owner else EmptyString;
     name_ref_at := fun i => if i =? index then name else EmptyString;
     signature_ref_at :=
       fun i => if i =? index then signature else EmptyString;
     int_at := fun _ => 0;
     float_at := fun _ => 0;
     long_at := fun _ => 0;
     double_at := fun _ => 0;
     string_at_noresolve := fun _ => EmptyString |}.

Definition new_object (index_hi index_lo : byte) : Instruction :=
  mkInsn xbb [index_hi; index_lo].
Definition invokevirtual (index_hi index_lo : byte) : Instruction :=
  mkInsn xb6 [index_hi; index_lo].

(** [tableswitch] at a bci that is a multiple of four: three bytes of
    padding, then the default offset, low and high both [low], and the one
    offset 16. *)
Definition tableswitch_one (default_lo low : byte) : Instruction :=
  mkInsn xaa [x00; x00; x00;
              x00; x00; x00; default_lo;
              x00; x00; x00; low;
              x00; x00; x00; low;
              x00; x00; x00; x10].

(** The quiet NaN [Float.NaN] of the Java library. *)
Definition float_NaN : Z := 0x7fc00000.

(** [return Float.NaN;] *)
Definition returns_NaN : methodOop :=
  method [ldc x01; freturn] (float_pool float_NaN).

(** Both cursors on their first instruction. *)
Definition at_first (switchable : bool) (old_cp new_cp : constantPoolOop)
  (i_old i_new : Instruction) : MethodComparator :=
  comparing old_cp new_cp switchable
    (Stream.fetch 0 i_old []) (Stream.fetch 0 i_new []) [] [].

End Sample.

(** ** Opcode sequences *)

(** The opcodes a cursor reports for a body, in order. *)
Definition opcodes (body : list Instruction) : list Code :=
  map Stream.java_code body.

(** [l] is [l'] with some elements left out. *)
Inductive subsequence {A : Type} : list A -> list A -> Prop :=
| subsequence_nil : forall l', subsequence [] l'
| subsequence_skip : forall x l l',
    subsequence l l' -> subsequence l (x :: l')
| subsequence_take : forall x l l',
    subsequence l l' -> subsequence (x :: l) (x :: l').

(** Every [case] label of the [switch] in [args_same]. *)
Definition compared (c : Code) : bool :=
  one_of c [_new; _anewarray; _multianewarray; _checkcast; _instanceof;
            _getstatic; _putstatic; _getfield; _putfield;
            _invokevirtual; _invokespecial; _invokestatic; _invokeinterface;
            _ldc; _ldc_w; _ldc2_w; _bipush; _sipush;
            _aload; _astore; _dload; _dstore; _fload; _fstore;
            _iload; _istore; _lload; _lstore; _ret;
            _goto; _if_acmpeq; _if_acmpne; _if_icmpeq; _if_icmpne;
            _if_icmplt; _if_icmpge; _if_icmpgt; _if_icmple;
            _ifeq; _ifne; _iflt; _ifge; _ifgt; _ifle;
            _ifnonnull; _ifnull; _jsr;
            _iinc; _goto_w; _jsr_w; _lookupswitch; _tableswitch].

(** The bci of each instruction of [body], when the first stands at
    [pos]. *)
Fixpoint starts (pos : Z) (body : list Instruction) : list Z :=
  match body with
  | [] => []
  | i :: rest => pos :: starts (pos + insn_length i) rest
  end.

(** [f] diverges at the start of an instruction of [todo_old] and starts
    and ends at the start of an instruction of [todo_new], when these stand
    at [pos_old] and [pos_new]. *)
Definition on_boundaries (pos_old : Z) (todo_old : list Instruction)
  (pos_new : Z) (todo_new : list Instruction) (f : Fragment) : Prop :=
  In (old_bci f) (starts pos_old todo_old)
  /\ In (new_st_bci f) (starts pos_new todo_new)
  /\ In (new_end_bci f) (starts pos_new todo_new).

(** [after] is [before] with whole pairs put behind it. *)
Definition appends_pairs (before after : list Z) : Prop :=
  exists added,
    after = before ++ added /\ Nat.even (List.length added) = true.

(** * ClassLoaderExt

    A shallow embedding of hotspot/share/classfile/classLoaderExt.cpp, as
    far as it computes: the cache of class path entries. *)

Module ClassLoaderExt.

(** The operations of [GrowableArray] that the cache uses, on the list of
    its elements. *)
Module GrowableArray.

Definition remove_at {E : Type} (index : nat) (data : list E) : list E :=
  firstn index data ++ skipn (S index) data.

Definition insert_before {E : Type} (idx : nat) (elem : E) (data : list E)
  : list E :=
  firstn idx data ++ elem :: skipn idx data.

End GrowableArray.

Section Cache.

(** A [ClassPathEntry*] that is not NULL. *)
Variable ClassPathEntry : Type.
(** What [os::stat] fills in. *)
Variable Stat : Type.
(** [os::stat(path, &st)], [None] when it does not return 0. *)
Variable os_stat : string -> option Stat.
(** [create_class_path_entry(path, &st, false, false, CHECK_NULL)], [None]
    when it returns NULL or leaves an exception pending. *)
Variable create_class_path_entry : string -> Stat -> option ClassPathEntry.

Record CachedClassPathEntry : Type := mkCached {
  _path : string;
  _entry : ClassPathEntry
}.

(** The [for] loop of [find_classpath_entry_from_cache], from index [i]:
    the first index whose path compares equal under [strcmp], with the
    element there. *)
Fixpoint search (path : string) (entries : list CachedClassPathEntry)
  (i : nat) : option (nat * CachedClassPathEntry) :=
  match entries with
  | [] => None
  | ccpe :: rest =>
      if String.eqb (_path ccpe) path then Some (i, ccpe)
      else search path rest (S i)
  end.

(** [ClassLoaderExt::find_classpath_entry_from_cache]: the entry returned,
    [None] for NULL, and [cached_path_entries] as the call leaves it. The
    array that does not exist yet is the empty list. *)
Definition find_classpath_entry_from_cache
  (cached_path_entries : list CachedClassPathEntry) (path : string)
  : option ClassPathEntry * list CachedClassPathEntry :=
  match search path cached_path_entries 0 with
  | Some (i, ccpe) =>
      if negb (Nat.eqb i 0) then
        (Some (_entry ccpe),
         GrowableArray.insert_before 0 ccpe
           (GrowableArray.remove_at i cached_path_entries))
      else (Some (_entry ccpe), cached_path_entries)
  | None =>
      match os_stat path with
      | None => (None, cached_path_entries)
      | Some st =>
          match create_class_path_entry path st with
          | None => (None, cached_path_entries)
          | Some new_entry =>
              (Some new_entry,
               GrowableArray.insert_before 0 (mkCached path new_entry)
                 cached_path_entries)
          end
      end
  end.

(** The entry that the cache holds for a path: that of the first element
    with this path. *)
Fixpoint cached_entry (path : string) (entries : list CachedClassPathEntry)
  : option ClassPathEntry :=
  match entries with
  | [] => None
  | ccpe :: rest =>
      if String.eqb (_path ccpe) path then Some (_entry ccpe)
      else cached_entry path rest
  end.

End Cache.

Arguments mkCached {ClassPathEntry} _ _.
Arguments _path {ClassPathEntry} _.
Arguments _entry {ClassPathEntry} _.
Arguments search {ClassPathEntry} _ _ _.
Arguments cached_entry {ClassPathEntry} _ _.
Arguments find_classpath_entry_from_cache {ClassPathEntry Stat} _ _ _ _.

(** A file system with two jars and nothing else. *)
Definition two_jars (path : string) : option unit :=
  if String.eqb path "a.jar" then Some tt
  else if String.eqb path "b.jar" then Some tt
  else None.

(** Entries are numbered by the length of their path. *)
Definition numbered (path : string) (_ : unit) : option nat :=
  Some (String.length path).

End ClassLoaderExt.
Import ClassLoaderExt.

(** ** C strings *)

(** A [char*] is kept as the characters from the pointer on; the end of the
    list stands for the NUL that ends the array. A pointer into a buffer is
    an offset, and [skipn] gives what it points at. *)
Module CString.

Definition NUL : ascii := Ascii.zero.

Fixpoint strlen (s : list ascii) : nat :=
  match s with
  | [] => O
  | x :: rest => if Ascii.eqb x NUL then O else S (strlen rest)
  end.

(** The string at a pointer: what is before the first NUL. *)
Definition c_string (s : list ascii) : list ascii := firstn (strlen s) s.

(** [strchr(s, c)] for a [c] that is not NUL: the offset of the first [c]
    in the string, [None] for NULL. *)
Fixpoint strchr (s : list ascii) (c : ascii) : option nat :=
  match s with
  | [] => None
  | x :: rest =>
      if Ascii.eqb x c then Some O
      else if Ascii.eqb x NUL then None
      else option_map S (strchr rest c)
  end.

(** [strrchr(s, c)] for a [c] that is not NUL: the offset of the last [c]
    in the string. *)
Fixpoint strrchr (s : list ascii) (c : ascii) : option nat :=
  match s with
  | [] => None
  | x :: rest =>
      if Ascii.eqb x NUL then None
      else match strrchr rest c with
           | Some k => Some (S k)
           | None => if Ascii.eqb x c then Some O else None
           end
  end.

(** [strncmp(a, b, n) == 0] *)
Fixpoint strncmp_eq (a b : list ascii) (n : nat) : bool :=
  match n with
  | O => true
  | S n' =>
      let x := hd NUL a in
      let y := hd NUL b in
      if Ascii.eqb x y then
        if Ascii.eqb x NUL then true else strncmp_eq (tl a) (tl b) n'
      else false
  end.

(** [needle] is at the start of [s]. *)
Fixpoint starts_with (needle s : list ascii) : bool :=
  match needle, s with
  | [], _ => true
  | _ :: _, [] => false
  | x :: needle', y :: s' => Ascii.eqb x y && starts_with needle' s'
  end.

Fixpoint occurs_in (needle s : list ascii) : bool :=
  starts_with needle s
  || match s with
     | [] => false
     | _ :: rest => occurs_in needle rest
     end.

(** [strstr(haystack, needle) != NULL] *)
Definition strstr_found (haystack needle : list ascii) : bool :=
  occurs_in (c_string needle) (c_string haystack).

(** [*(buf + i) = c] *)
Definition store (buf : list ascii) (i : nat) (c : ascii) : list ascii :=
  firstn i buf ++ c :: skipn (S i) buf.

(** The string that [strncat(dest, src, n)] leaves at [dest]. *)
Definition strncat (dest src : list ascii) (n : nat) : list ascii :=
  c_string dest ++ firstn n (c_string src).

End CString.

(** ** ClassLoaderExt: the Class-Path attribute of a jar manifest *)

Module Manifest.

Import CString.

Definition newline : ascii := "010"%char.
Definition space : ascii := " "%char.

(** [tag] and [tag_len] of [get_class_path_attr]. *)
Definition tag : list ascii := list_ascii_of_string "Class-Path: ".
Definition tag_len : nat := strlen tag.

(** The [while] loop of [get_class_path_attr], for at most [fuel] rounds:
    [found], the manifest buffer and the number of warnings printed, as the
    loop leaves them. *)
Fixpoint class_path_loop (fuel : nat) (manifest : list ascii) (end_ : nat)
  (line_start : nat) (found : option nat) (warnings : nat)
  : option nat * list ascii * nat :=
  match fuel with
  | O => (found, manifest, warnings)
  | S fuel' =>
      if (line_start <? end_)%nat then
        match strchr (skipn line_start manifest) newline with
        | None => (found, manifest, warnings)
        | Some k =>
            let line_end := (line_start + k)%nat in
            let '(found, manifest, warnings) :=
              if strncmp_eq tag (skipn line_start manifest) tag_len
              then (Some (line_start + tag_len)%nat,
                    store manifest line_end NUL,
                    match found with
                    | Some _ => S warnings
                    | None => warnings
                    end)
              else (found, manifest, warnings) in
            class_path_loop fuel' manifest end_ (line_end + 1)%nat found
              warnings
        end
      else (found, manifest, warnings)
  end.

(** [ClassLoaderExt::get_class_path_attr]: the pointer returned, as an
    offset into the manifest ([None] for NULL), the manifest buffer as the
    call leaves it, and how many times the warning of a duplicate was
    printed. Every round moves [line_start] forward, so [manifest_size]
    rounds are all there can be. *)
Definition get_class_path_attr (manifest : list ascii) (manifest_size : nat)
  : option nat * list ascii * nat :=
  class_path_loop manifest_size manifest manifest_size 0 None 0.

(** How [process_jar_manifest] ends: in [vm_exit], or by returning after
    the calls of [ClassLoader::update_class_path_entry_list] with the given
    library names, in this order. *)
Inductive outcome : Type :=
| vm_exit (status : Z)
| returned (libnames : list (list ascii)).

Section Split.

Variable dir_name : list ascii.
Variable dir_len : nat.

(** The [while] loop of [process_jar_manifest] that splits the attribute
    at spaces, for at most [fuel] rounds: the library names passed on so
    far. *)
Fixpoint split_loop (fuel : nat) (buf : list ascii) (end_ : nat)
  (file_start : nat) (libnames : list (list ascii)) : list (list ascii) :=
  match fuel with
  | O => libnames
  | S fuel' =>
      if (file_start <? end_)%nat then
        let '(buf, file_end) :=
          match strchr (skipn file_start buf) space with
          | Some k => (store buf (file_start + k) NUL,
                       (file_start + k + 1)%nat)
          | None => (buf, end_)
          end in
        let name_len := strlen (skipn file_start buf) in
        let libnames :=
          if (0 <? name_len)%nat then
            libnames
            ++ [strncat (strncat [] dir_name dir_len)
                  (skipn file_start buf) name_len]
          else libnames in
        split_loop fuel' buf end_ file_end libnames
      else libnames
  end.

End Split.

(** [ClassLoaderExt::process_jar_manifest], given the name of the entry,
    the first character of [os::file_separator()] and what [read_manifest]
    returned: the cleaned text of the manifest, [None] for NULL. *)
Definition process_jar_manifest (entry_name : list ascii) (sep : ascii)
  (manifest : option (list ascii)) : outcome :=
  match manifest with
  | None => returned []
  | Some manifest =>
      let manifest_size := strlen manifest in
      if strstr_found manifest (list_ascii_of_string "Extension-List:")
      then vm_exit 1
      else
        let '(cp_attr, manifest, _) :=
          get_class_path_attr manifest manifest_size in
        match cp_attr with
        | Some cp_attr =>
            if (0 <? strlen (skipn cp_attr manifest))%nat then
              let dir_len :=
                match strrchr entry_name sep with
                | None => O
                | Some dir_tail => (dir_tail + 1)%nat
                end in
              let file_start := cp_attr in
              let end_ :=
                (file_start + strlen (skipn file_start manifest))%nat in
              returned
                (split_loop entry_name dir_len
                   (strlen (skipn file_start manifest)) manifest end_
                   file_start [])
            else returned []
        | None => returned []
        end
  end.

(** *** What the text of a manifest says *)

(** The lines of a text that end in a newline, without it, and what is
    left behind the last newline. *)
Fixpoint lines_of (text : list ascii) : list (list ascii) * list ascii :=
  match text with
  | [] => ([], [])
  | c :: rest =>
      let '(lines, tail) := lines_of rest in
      if Ascii.eqb c newline then ([] :: lines, tail)
      else match lines with
           | [] => ([], c :: tail)
           | line :: lines' => ((c :: line) :: lines', tail)
           end
  end.

(** The value of the last line that starts with the tag, [found] when
    there is none. *)
Fixpoint last_class_path (lines : list (list ascii))
  (found : option (list ascii)) : option (list ascii) :=
  match lines with
  | [] => found
  | line :: rest =>
      last_class_path rest
        (if starts_with tag line then Some (skipn tag_len line) else found)
  end.

Definition is_some {A : Type} (o : option A) : bool :=
  match o with
  | Some _ => true
  | None => false
  end.

(** The warnings for the lines that start with the tag: one for each
    that has such a line before it. *)
Fixpoint duplicate_warnings (lines : list (list ascii)) (seen : bool)
  : nat :=
  match lines with
  | [] => O
  | line :: rest =>
      if starts_with tag line
      then ((if seen then 1 else 0) + duplicate_warnings rest true)%nat
      else duplicate_warnings rest seen
  end.

(** A pointer and a value that go together: no pointer and no value, or
    an offset into the buffer where the value stands, followed by NUL. *)
Definition points_at (buf : list ascii) (found : option nat)
  (value : option (list ascii)) : Prop :=
  match found, value with
  | None, None => True
  | Some p, Some s =>
      exists before after,
        buf = before ++ s ++ NUL :: after
        /\ List.length before = p
        /\ Forall (fun c => c <> NUL) s
  | _, _ => False
  end.

(** The string at the pointer that [get_class_path_attr] returns, read
    in the buffer it leaves. *)
Definition returned_string (result : option nat * list ascii * nat)
  : option (list ascii) :=
  option_map (fun p => c_string (skipn p (snd (fst result))))
             (fst (fst result)).

(** The lines of a text that start with the tag. *)
Definition class_path_lines (text : list ascii) : list (list ascii) :=
  filter (starts_with tag) (fst (lines_of text)).

(** The pieces of a text between its spaces. *)
Fixpoint fields (text : list ascii) : list (list ascii) :=
  match text with
  | [] => [[]]
  | c :: rest =>
      if Ascii.eqb c space then [] :: fields rest
      else match fields rest with
           | [] => [[c]]
           | field :: rest' => (c :: field) :: rest'
           end
  end.

Definition nonempty (s : list ascii) : bool :=
  match s with
  | [] => false
  | _ :: _ => true
  end.

(** The directory part of the name of an entry: up to its last
    separator. *)
Definition directory_of (entry_name : list ascii) (sep : ascii)
  : list ascii :=
  match strrchr entry_name sep with
  | None => []
  | Some dir_tail => firstn (dir_tail + 1) (c_string entry_name)
  end.

(** The libraries that the text of a manifest names for the jar
    [entry_name]: the pieces of its Class-Path value that are not empty,
    each behind the directory of the jar. *)
Definition libraries_named (entry_name : list ascii) (sep : ascii)
  (manifest : list ascii) : list (list ascii) :=
  match last_class_path (fst (lines_of manifest)) None with
  | None => []
  | Some value =>
      map (app (directory_of entry_name sep)) (filter nonempty (fields value))
  end.

(** A manifest that names two libraries. *)
Definition sample : list ascii :=
  list_ascii_of_string "Manifest-Version: 1.0
Class-Path: a.jar  lib/b.jar
Created-By: 9
".

(** A manifest with the attribute twice. *)
Definition sample_twice : list ascii :=
  list_ascii_of_string "Class-Path: a.jar
Class-Path: b.jar
".

End Manifest.
Import CString.

(** Splits a hypothesis [one_of c cases = true] into its cases. *)
Ltac case_labels H :=
  cbn [one_of existsb is_short_branch is_wide_branch] in H;
  repeat (apply orb_prop in H; destruct H as [H|H]);
  try discriminate H;
  apply Z.eqb_eq in H; subst.

(** * Basic facts *)

Lemma u1_nonneg (b : byte) : 0 <= u1 b.
Proof. unfold u1. lia. Qed.

Lemma java_code_nonneg (i : Instruction) :
  (Stream.java_code i >=? 0) = true.
Proof.
  unfold Stream.java_code.
  destruct (u1 (insn_head i) =? _wide); apply Z.geb_le, u1_nonneg.
Qed.

(** The scans read the old cursor through [Stream.fetch]: that is its
    [next()] while instructions remain, and [next()] reports [_illegal]
    when none does. *)
Lemma next_fetch (s : BytecodeStream) (i : Instruction)
  (rest : list Instruction) :
  _todo s = i :: rest ->
  Stream.next s = (Stream.java_code i, Stream.fetch (_next_bci s) i rest).
Proof. intros H. unfold Stream.next. now rewrite H. Qed.

Lemma next_at_end (s : BytecodeStream) :
  _todo s = [] -> fst (Stream.next s) = _illegal.
Proof. intros H. unfold Stream.next. now rewrite H. Qed.

Lemma insn_length_pos (i : Instruction) : 0 < insn_length i.
Proof. unfold insn_length, insn_bytes. cbn [List.length]. lia. Qed.

Lemma code_length_nonneg (body : list Instruction) : 0 <= code_length body.
Proof.
  induction body as [|i body IH]; cbn [code_length]; [lia|].
  pose proof (insn_length_pos i). lia.
Qed.

Lemma code_length_app (body extra : list Instruction) :
  code_length (body ++ extra) = code_length body + code_length extra.
Proof. induction body as [|i body IH]; cbn [code_length app]; lia. Qed.

(** * The precondition of [methods_switchable] *)

(** What the check of [methods_switchable] does with the classification:
    a pair that [check_stack_and_locals_size] finds compatible is refused
    before any instruction is read. *)
Lemma methods_switchable_compatible_refused
  (old_method new_method : methodOop) (bci_map : BciMap) :
  check_stack_and_locals_size old_method new_method = 0 ->
  methods_switchable old_method new_method bci_map = (false, bci_map).
Proof.
  intros Hcheck. unfold methods_switchable. rewrite Hcheck. simpl.
  destruct (code_size old_method >? code_size new_method); reflexivity.
Qed.

(** C1: on two bodies that differ in max-stack alone [methods_switchable]
    scans and answers true, and on two bodies with equal max-stack,
    max-locals and parameter size it answers false without scanning:
    the test of the classification is the wrong way round. *)
Theorem methods_switchable_size_check_inverted :
  methods_switchable Sample.A (Sample.with_max_stack Sample.B 2) []
  = (true, [])
  /\ check_stack_and_locals_size Sample.A (Sample.with_max_stack Sample.B 2)
     = 1
  /\ methods_switchable Sample.A Sample.B [] = (false, [])
  /\ check_stack_and_locals_size Sample.A Sample.B = 0
  /\ methods_EMCP Sample.A Sample.B = true.
Proof. repeat split; reflexivity. Qed.

(** C2: of the concrete scenario the exact comparisons come out as
    stated, and so does the switchable comparison of A with B''; the
    switchable comparison of A with B' answers false with no fragment,
    where a fragment (1, 1, 2) is expected. The scan itself finds that
    fragment once the precondition lets it run, as it does when max-stack
    differs. *)
Theorem concrete_scenario :
  methods_EMCP Sample.A Sample.B = true
  /\ methods_EMCP Sample.A Sample.B' = false
  /\ methods_switchable Sample.A Sample.B' [] = (false, [])
  /\ methods_EMCP Sample.A Sample.B'' = false
  /\ methods_switchable Sample.A Sample.B'' [] = (false, [])
  /\ methods_switchable Sample.A (Sample.with_max_stack Sample.B' 2) []
     = (true, [mkFragment 1 1 2]).
Proof. repeat split; reflexivity. Qed.

(** C3: whenever [methods_EMCP] answers true, [methods_switchable]
    answers false (and leaves the position map as it was): an exact match
    is never switchable. *)
Theorem EMCP_not_switchable (old_method new_method : methodOop)
  (bci_map : BciMap) :
  methods_EMCP old_method new_method = true ->
  methods_switchable old_method new_method bci_map = (false, bci_map).
Proof.
  intros Hemcp. apply methods_switchable_compatible_refused.
  unfold methods_EMCP in Hemcp.
  destruct (code_size old_method =? code_size new_method);
    simpl in Hemcp; [|discriminate].
  destruct (check_stack_and_locals_size old_method new_method =? 0) eqn:Hc;
    simpl in Hemcp; [|discriminate].
  now apply Z.eqb_eq.
Qed.

Lemma EMCP_not_switchable_witness :
  methods_switchable Sample.A Sample.B [] = (false, []).
Proof. apply (EMCP_not_switchable Sample.A Sample.B []). reflexivity. Defined.

(** * [iinc] *)

(** C5: two [wide iinc] instructions on local 1, one adding 257 and one
    adding 258, compare as the same: the four bytes read behind [bcp()]
    start at the [iinc] opcode and stop short of the low byte of the
    increment. *)
Theorem wide_iinc_low_byte_ignored :
  args_same
    (Sample.at_first false Sample.no_constants Sample.no_constants
       (Sample.wide_iinc x00 x01 x01 x01) (Sample.wide_iinc x00 x01 x01 x02))
    _iinc _iinc
  = (true, [])
  /\ methods_EMCP
       (Sample.method [Sample.wide_iinc x00 x01 x01 x01; Sample.ireturn]
          Sample.no_constants)
       (Sample.method [Sample.wide_iinc x00 x01 x01 x02; Sample.ireturn]
          Sample.no_constants)
     = true.
Proof. split; reflexivity. Qed.

Lemma u1_bounded (b : byte) : 0 <= u1 b < 256.
Proof. unfold u1. pose proof (Byte.to_N_bounded b). lia. Qed.

Lemma u1_inj (a b : byte) : u1 a = u1 b -> a = b.
Proof.
  unfold u1. intros H. apply N2Z.inj in H.
  pose proof (Byte.of_to_N a) as Ha. rewrite H, Byte.of_to_N in Ha.
  now inversion Ha.
Qed.

Lemma args_same_iinc (st : MethodComparator) (c_new : Code) :
  args_same st _iinc c_new
  = if negb (Bool.eqb (Stream.is_wide (_s_old st))
                      (Stream.is_wide (_s_new st)))
    then (false, _fwd_jmps st)
    else if negb (Stream.is_wide (_s_old st)) then
      if negb (Stream.get_index_big (_s_old st)
               =? Stream.get_index_big (_s_new st))
      then (false, _fwd_jmps st)
      else (true, _fwd_jmps st)
    else
      if negb (Stream.get_Java_u4 (_s_old st) 1
               =? Stream.get_Java_u4 (_s_new st) 1)
      then (false, _fwd_jmps st)
      else (true, _fwd_jmps st).
Proof. reflexivity. Qed.

(** Without the prefix, [iinc] is compared on its index and its
    increment. *)
Lemma iinc_compared (switchable : bool) (old_cp new_cp : constantPoolOop)
  (index const index' const' : byte) :
  fst (args_same
         (Sample.at_first switchable old_cp new_cp
            (Sample.iinc index const) (Sample.iinc index' const'))
         _iinc _iinc)
  = true
  <-> index = index' /\ const = const'.
Proof.
  rewrite args_same_iinc.
  change (fst (if negb (u1 index * 256 + u1 const
                        =? u1 index' * 256 + u1 const')
               then (false, @nil Z) else (true, @nil Z)) = true
          <-> index = index' /\ const = const').
  pose proof (u1_bounded index). pose proof (u1_bounded const).
  pose proof (u1_bounded index'). pose proof (u1_bounded const').
  destruct (_ =? _) eqn:E; cbn [negb fst]; split.
  - intros _. apply Z.eqb_eq in E. split; apply u1_inj; lia.
  - reflexivity.
  - discriminate.
  - intros [-> ->]. rewrite Z.eqb_refl in E. discriminate E.
Qed.

(** Behind the prefix, [iinc] is compared on its index and on the high
    byte of its increment, whatever the low bytes are. *)
Lemma wide_iinc_compared (switchable : bool) (old_cp new_cp : constantPoolOop)
  (index_hi index_lo const_hi const_lo : byte)
  (index_hi' index_lo' const_hi' const_lo' : byte) :
  fst (args_same
         (Sample.at_first switchable old_cp new_cp
            (Sample.wide_iinc index_hi index_lo const_hi const_lo)
            (Sample.wide_iinc index_hi' index_lo' const_hi' const_lo'))
         _iinc _iinc)
  = true
  <-> index_hi = index_hi' /\ index_lo = index_lo' /\ const_hi = const_hi'.
Proof.
  rewrite args_same_iinc.
  change (fst (if negb (((132 * 256 + u1 index_hi) * 256 + u1 index_lo) * 256
                        + u1 const_hi
                        =? ((132 * 256 + u1 index_hi') * 256 + u1 index_lo')
                           * 256 + u1 const_hi')
               then (false, @nil Z) else (true, @nil Z)) = true
          <-> index_hi = index_hi' /\ index_lo = index_lo'
              /\ const_hi = const_hi').
  pose proof (u1_bounded index_hi). pose proof (u1_bounded index_lo).
  pose proof (u1_bounded const_hi). pose proof (u1_bounded index_hi').
  pose proof (u1_bounded index_lo'). pose proof (u1_bounded const_hi').
  destruct (_ =? _) eqn:E; cbn [negb fst]; split.
  - intros _. apply Z.eqb_eq in E. repeat split; apply u1_inj; lia.
  - reflexivity.
  - discriminate.
  - intros (-> & -> & ->). rewrite Z.eqb_refl in E. discriminate E.
Qed.

(** * Reflexivity of [methods_EMCP] *)

(** C6: a method that loads the float constant NaN is not EMCP with
    itself: the literals are compared as floats, and NaN differs from
    NaN. *)
Theorem EMCP_not_reflexive_on_NaN :
  methods_EMCP Sample.returns_NaN Sample.returns_NaN = false.
Proof. reflexivity. Qed.

Lemma symbol_ne_refl (a : symbol) : symbol_ne a a = false.
Proof. unfold symbol_ne. now rewrite String.eqb_refl. Qed.

Lemma strcmp_ne_refl (a : string) : strcmp_ne a a = false.
Proof. unfold strcmp_ne. now rewrite String.eqb_refl. Qed.

Lemma IEEE_ne_refl (f : IEEE.format) (a : Z) :
  IEEE.is_nan f a = false -> IEEE.ne f a a = false.
Proof.
  intros H. unfold IEEE.ne, IEEE.eq. rewrite H, Z.eqb_refl. reflexivity.
Qed.

Lemma memcmp_ne_refl (s : BytecodeStream) (n : Z) :
  Stream.memcmp_ne s s n = false.
Proof.
  unfold Stream.memcmp_ne. apply negb_false_iff, forallb_forall.
  intros k _. apply Z.eqb_refl.
Qed.

Lemma args_same_refl (cp : constantPoolOop) (s : BytecodeStream) (c : Code) :
  literal_comparable cp s c = true ->
  fst (args_same (comparing cp cp false s s [] []) c c) = true.
Proof.
  unfold literal_comparable, args_same, branch_same, switch_same, ldc_index,
    jfloat_ne, jdouble_ne.
  cbn [comparing _s_old _s_new _old_cp _new_cp _bci_map _switchable_test
       _fwd_jmps].
  cbv zeta.
  rewrite ?symbol_ne_refl, ?strcmp_ne_refl, ?Z.eqb_refl, ?memcmp_ne_refl,
    ?eqb_reflx.
  cbn [negb orb andb].
  rewrite ?andb_false_r.
  set (tag := tag_at cp (if c =? _ldc then Stream.bcp s 1
                         else Stream.get_index_big s)).
  set (tag2 := tag_at cp (Stream.get_index_big s)).
  destruct (Tag.is_int tag), (Tag.is_float tag), (Tag.is_string tag),
    (Tag.is_unresolved_string tag), (Tag.is_unresolved_klass tag),
    (Tag.is_klass tag), (Tag.is_long tag2);
    cbn [negb orb andb];
    repeat match goal with
           | |- context [if ?b then _ else _] => destruct b eqn:?
           end;
    cbn [fst orb negb]; intros Hok;
    try reflexivity; try discriminate Hok; try congruence;
    apply negb_true_iff in Hok;
    match goal with
    | H : IEEE.ne _ _ _ = true |- _ =>
        rewrite (IEEE_ne_refl _ _ Hok) in H; discriminate H
    end.
Qed.

Lemma EMCP_loop_refl (cp : constantPoolOop) (todo : list Instruction) :
  forall (pos : Z) (s_new : BytecodeStream),
    _todo s_new = todo -> _next_bci s_new = pos ->
    Forall (fun i => insn_comparable cp i = true) todo ->
    EMCP_loop cp cp todo pos s_new = true.
Proof.
  induction todo as [|i rest IH]; intros pos s_new Htodo Hpos Hall;
    cbn [EMCP_loop].
  - reflexivity.
  - inversion Hall as [|i' rest' Hi Hrest]; subst i' rest'.
    pose proof (java_code_nonneg i) as Hcode.
    rewrite Hcode. unfold Stream.next. rewrite Htodo, Hpos.
    replace (Stream.java_code i <? 0) with false
      by (symmetry; apply Z.ltb_ge; apply Z.geb_le in Hcode; lia).
    rewrite Z.eqb_refl. cbn [negb orb].
    rewrite args_same_refl by exact Hi.
    cbn [negb]. now apply IH.
Qed.

(** Without a NaN among its float and double constants (and with the
    constants its loads name of a kind they can load) a body is EMCP with
    itself. *)
Lemma EMCP_reflexive_without_NaN (m : methodOop) :
  Forall (fun i => insn_comparable (constants m) i = true) (code m) ->
  methods_EMCP m m = true.
Proof.
  intros Hall. unfold methods_EMCP, check_stack_and_locals_size.
  rewrite !Z.eqb_refl. cbn [negb].
  now apply EMCP_loop_refl.
Qed.

(** * Code length *)

(** C7: [methods_switchable] answers false whenever the new code is
    shorter than the old. *)
Theorem shorter_not_switchable (old_method new_method : methodOop)
  (bci_map : BciMap) :
  code_size new_method < code_size old_method ->
  fst (methods_switchable old_method new_method bci_map) = false.
Proof.
  intros Hlt. unfold methods_switchable.
  replace (code_size old_method >? code_size new_method) with true;
    [reflexivity|].
  symmetry. apply Z.gtb_lt. exact Hlt.
Qed.

Lemma shorter_not_switchable_witness :
  fst (methods_switchable Sample.B' Sample.A []) = false.
Proof.
  apply (shorter_not_switchable Sample.B' Sample.A []).
  vm_compute. reflexivity.
Defined.

(** * Dispatch of [args_same] *)

Lemma args_same_short_branch (st : MethodComparator) (c_old c_new : Code) :
  is_short_branch c_old = true ->
  args_same st c_old c_new
  = branch_same st (Int.to_short (Stream.get_index_big (_s_old st)))
                   (Int.to_short (Stream.get_index_big (_s_new st))).
Proof. intros H. unfold is_short_branch in H. case_labels H; reflexivity. Qed.

Lemma args_same_wide_branch (st : MethodComparator) (c_old c_new : Code) :
  is_wide_branch c_old = true ->
  args_same st c_old c_new
  = branch_same st (Int.to_int (Stream.get_Java_u4 (_s_old st) 1))
                   (Int.to_int (Stream.get_Java_u4 (_s_new st) 1)).
Proof. intros H. unfold is_wide_branch in H. case_labels H; reflexivity. Qed.

Lemma short_branch_not_wide (c : Code) :
  is_short_branch c = true -> is_wide_branch c = false.
Proof. intros H. unfold is_short_branch in H. case_labels H; reflexivity. Qed.

(** Every branch goes through [branch_same], on the offsets and targets
    that [branch_offset] and [branch_dest] name. *)
Lemma args_same_branch (st : MethodComparator) (c_old c_new : Code) :
  is_short_branch c_old || is_wide_branch c_old = true ->
  args_same st c_old c_new
  = branch_same st (branch_offset c_old (_s_old st))
                   (branch_offset c_old (_s_new st)).
Proof.
  intros H. unfold branch_offset.
  destruct (is_short_branch c_old) eqn:Hs.
  - rewrite (short_branch_not_wide _ Hs).
    now apply args_same_short_branch.
  - simpl in H. rewrite H. now apply args_same_wide_branch.
Qed.

(** * Branches *)

(** C4, amended: for a pair of branch instructions in switchable mode, two
    offsets below zero have their targets decided by the position map at
    once; two offsets above zero have their targets appended to the
    pending jumps; any other pair of offsets, a zero among them, fails. In
    exact mode the offsets must be equal. *)
Theorem branch_rule (st : MethodComparator) (c_old c_new : Code) :
  is_short_branch c_old || is_wide_branch c_old = true ->
  let old_ofs := branch_offset c_old (_s_old st) in
  let new_ofs := branch_offset c_old (_s_new st) in
  let old_dest := branch_dest c_old (_s_old st) in
  let new_dest := branch_dest c_old (_s_new st) in
  (_switchable_test st = true ->
   (old_ofs < 0 -> new_ofs < 0 ->
    args_same st c_old c_new
    = (Map.old_and_new_locations_same (_bci_map st) old_dest new_dest,
       _fwd_jmps st))
   /\ (0 < old_ofs -> 0 < new_ofs ->
       args_same st c_old c_new
       = (true, _fwd_jmps st ++ [old_dest; new_dest]))
   /\ (~ (old_ofs < 0 /\ new_ofs < 0) -> ~ (0 < old_ofs /\ 0 < new_ofs) ->
       args_same st c_old c_new = (false, _fwd_jmps st)))
  /\ (_switchable_test st = false ->
      args_same st c_old c_new = (old_ofs =? new_ofs, _fwd_jmps st)).
Proof.
  intros Hbranch old_ofs new_ofs old_dest new_dest.
  rewrite (args_same_branch st c_old c_new Hbranch).
  fold old_ofs new_ofs. unfold branch_same.
  fold (branch_dest c_old (_s_old st)) (branch_dest c_old (_s_new st)).
  unfold branch_dest. fold old_ofs new_ofs.
  split; intros Hmode; rewrite Hmode.
  - repeat split.
    + intros Ho Hn.
      apply Z.ltb_lt in Ho, Hn. rewrite Ho, Hn. cbn [andb].
      now destruct (Map.old_and_new_locations_same _ _ _).
    + intros Ho Hn.
      destruct (old_ofs <? 0) eqn:Ho'; [apply Z.ltb_lt in Ho'; lia|].
      cbn [andb].
      replace (old_ofs >? 0) with true by (symmetry; apply Z.gtb_lt; lia).
      replace (new_ofs >? 0) with true by (symmetry; apply Z.gtb_lt; lia).
      reflexivity.
    + intros Hneg Hpos.
      destruct ((old_ofs <? 0) && (new_ofs <? 0)) eqn:Hb.
      { apply andb_prop in Hb. destruct Hb as [Ho Hn].
        apply Z.ltb_lt in Ho, Hn. tauto. }
      destruct ((old_ofs >? 0) && (new_ofs >? 0)) eqn:Hf; [|reflexivity].
      apply andb_prop in Hf. destruct Hf as [Ho Hn].
      apply Z.gtb_lt in Ho, Hn. tauto.
  - now destruct (old_ofs =? new_ofs).
Qed.

Lemma branch_rule_witness :
  args_same
    (Sample.at_first true Sample.no_constants Sample.no_constants
       (Sample.goto x00 x03) (Sample.goto x00 x05))
    _goto _goto
  = (true, [3; 5]).
Proof.
  apply (proj1 (proj2 (proj1
           (branch_rule
              (Sample.at_first true Sample.no_constants Sample.no_constants
                 (Sample.goto x00 x03) (Sample.goto x00 x05))
              _goto _goto eq_refl)
           eq_refl)));
    vm_compute; reflexivity.
Defined.

(** C4 as stated fails: two [goto] instructions at bci 0 that jump to
    themselves carry offset 0 and the empty map takes 0 to 0, yet
    [args_same] refuses the pair instead of asking the map. *)
Lemma zero_offset_branch_refused :
  ~ backward_is_nonpositive
      (Sample.at_first true Sample.no_constants Sample.no_constants
         (Sample.goto x00 x00) (Sample.goto x00 x00))
      _goto.
Proof.
  intros H.
  assert (Hcontra : (false, @nil Z) = (true, @nil Z)).
  { apply H; vm_compute; [reflexivity | discriminate | discriminate]. }
  discriminate Hcontra.
Qed.

(** * [ldc] *)

Lemma args_same_ldc (st : MethodComparator) (c_old c_new : Code) :
  one_of c_old [_ldc; _ldc_w] = true ->
  args_same st c_old c_new
  = let old_cp := _old_cp st in
    let new_cp := _new_cp st in
    let fwd_jmps := _fwd_jmps st in
    let cpi_old := ldc_index c_old (_s_old st) in
    let cpi_new := ldc_index c_old (_s_new st) in
    let tag_old := tag_at old_cp cpi_old in
    let tag_new := tag_at new_cp cpi_new in
    if Tag.is_int tag_old || Tag.is_float tag_old then
      if negb (Tag.value tag_old =? Tag.value tag_new) then (false, fwd_jmps)
      else if Tag.is_int tag_old then
        if negb (int_at old_cp cpi_old =? int_at new_cp cpi_new)
        then (false, fwd_jmps)
        else (true, fwd_jmps)
      else
        if jfloat_ne (float_at old_cp cpi_old) (float_at new_cp cpi_new)
        then (false, fwd_jmps)
        else (true, fwd_jmps)
    else if Tag.is_string tag_old || Tag.is_unresolved_string tag_old then
      if negb (Tag.is_unresolved_string tag_new || Tag.is_string tag_new)
      then (false, fwd_jmps)
      else if strcmp_ne (string_at_noresolve old_cp cpi_old)
                        (string_at_noresolve new_cp cpi_new)
      then (false, fwd_jmps)
      else (true, fwd_jmps)
    else
      if negb (Tag.is_unresolved_klass tag_new || Tag.is_klass tag_new)
      then (false, fwd_jmps)
      else if symbol_ne (klass_at_noresolve old_cp cpi_old)
                        (klass_at_noresolve new_cp cpi_new)
      then (false, fwd_jmps)
      else (true, fwd_jmps).
Proof. intros H. case_labels H; reflexivity. Qed.

(** C8: for a pair of [ldc] (or [ldc_w]) instructions whose operands are
    both integer literals, [args_same] answers whether the two values are
    equal, so it answers true only then; when one operand is an unresolved
    string and the other a resolved string of the same content, it answers
    true. *)
Theorem ldc_rule (st : MethodComparator) (c_old c_new : Code) :
  one_of c_old [_ldc; _ldc_w] = true ->
  let cpi_old := ldc_index c_old (_s_old st) in
  let cpi_new := ldc_index c_old (_s_new st) in
  let tag_old := tag_at (_old_cp st) cpi_old in
  let tag_new := tag_at (_new_cp st) cpi_new in
  (Tag.is_int tag_old = true -> Tag.is_int tag_new = true ->
   fst (args_same st c_old c_new)
   = (int_at (_old_cp st) cpi_old =? int_at (_new_cp st) cpi_new))
  /\ ((Tag.is_unresolved_string tag_old = true /\ Tag.is_string tag_new = true)
      \/ (Tag.is_string tag_old = true
          /\ Tag.is_unresolved_string tag_new = true) ->
      string_at_noresolve (_old_cp st) cpi_old
      = string_at_noresolve (_new_cp st) cpi_new ->
      fst (args_same st c_old c_new) = true).
Proof.
  intros Hldc cpi_old cpi_new tag_old tag_new.
  rewrite (args_same_ldc st c_old c_new Hldc). cbv zeta.
  fold cpi_old cpi_new. fold tag_old tag_new.
  unfold Tag.is_int, Tag.is_float, Tag.is_string, Tag.is_unresolved_string.
  split.
  - intros Ho Hn. rewrite Ho. cbn [orb].
    apply Z.eqb_eq in Ho, Hn. rewrite Ho, Hn. cbn.
    now destruct (int_at (_old_cp st) cpi_old =? int_at (_new_cp st) cpi_new).
  - intros Htags Hcontent. unfold strcmp_ne. rewrite Hcontent.
    rewrite String.eqb_refl.
    destruct Htags as [[Ho Hn]|[Ho Hn]];
      apply Z.eqb_eq in Ho, Hn; rewrite Ho, Hn; reflexivity.
Qed.

Lemma ldc_rule_witness :
  fst (args_same
         (Sample.at_first false (Sample.int_pool 5) (Sample.int_pool 6)
            (Sample.ldc x01) (Sample.ldc x01))
         _ldc _ldc)
  = false
  /\ fst (args_same
            (Sample.at_first false
               (Sample.string_pool JVM_CONSTANT_UnresolvedString "x")
               (Sample.string_pool JVM_CONSTANT_String "x")
               (Sample.ldc x01) (Sample.ldc x01))
            _ldc _ldc)
     = true.
Proof.
  split.
  - exact (proj1 (ldc_rule
                    (Sample.at_first false (Sample.int_pool 5)
                       (Sample.int_pool 6) (Sample.ldc x01) (Sample.ldc x01))
                    _ldc _ldc eq_refl)
             eq_refl eq_refl).
  - apply (proj2 (ldc_rule
                    (Sample.at_first false
                       (Sample.string_pool JVM_CONSTANT_UnresolvedString "x")
                       (Sample.string_pool JVM_CONSTANT_String "x")
                       (Sample.ldc x01) (Sample.ldc x01))
                    _ldc _ldc eq_refl)).
    + left. split; reflexivity.
    + reflexivity.
Defined.

(** * The cursor *)

Lemma fetch_next_bci (pos : Z) (i : Instruction) (rest : list Instruction) :
  _bci (Stream.fetch pos i rest) = pos
  /\ pos < _next_bci (Stream.fetch pos i rest).
Proof.
  cbn [Stream.fetch _bci _next_bci]. pose proof (insn_length_pos i). lia.
Qed.

(** A [next()] that delivers an instruction puts the cursor where the one
    before ended, and that instruction has some length. *)
Lemma next_delivers (s s' : BytecodeStream) (c : Code) :
  Stream.next s = (c, s') -> (c <? 0) = false ->
  _bci s' = _next_bci s /\ _bci s' < _next_bci s'.
Proof.
  unfold Stream.next. destruct (_todo s) as [|i rest]; intros Hn Hc.
  - inversion Hn; subst. discriminate Hc.
  - inversion Hn; subst. apply fetch_next_bci.
Qed.

Section ScanFacts.

Variables old_cp new_cp : constantPoolOop.

(** The resynchronisation stops on an instruction at or after the position
    it started from. *)
Lemma find_match_position (s_old : BytecodeStream) (c_old : Code)
  (bci_map : BciMap) (todo_new : list Instruction) :
  forall (pos_new : Z) (fwd_jmps fwd_jmps' : list Z) (s : BytecodeStream),
    find_match old_cp new_cp s_old c_old bci_map todo_new pos_new fwd_jmps
    = (Some s, fwd_jmps') ->
    pos_new <= _bci s /\ _bci s < _next_bci s.
Proof.
  induction todo_new as [|i rest IH]; intros pos_new fwd_jmps fwd_jmps' s;
    cbn [find_match].
  - discriminate.
  - destruct (same_insn _ _ _ _ _ _ _ _) as [same fwd1].
    destruct same.
    + intros H. inversion H; subst.
      destruct (fetch_next_bci pos_new i rest). lia.
    + rewrite java_code_nonneg. intros H. apply IH in H.
      destruct (fetch_next_bci pos_new i rest). lia.
Qed.

End ScanFacts.

(** * Recorded fragments *)

Lemma StronglySorted_snoc {A : Type} (R : A -> A -> Prop) (l : list A)
  (a : A) :
  StronglySorted R l -> Forall (fun x => R x a) l ->
  StronglySorted R (l ++ [a]).
Proof.
  induction 1 as [|x l Hl IH Hx]; intros Ha; cbn [app].
  - repeat constructor.
  - inversion Ha; subst. constructor.
    + now apply IH.
    + apply Forall_app. split; [assumption|]. now constructor.
Qed.

Lemma behind_weaken (pos_old pos_new pos_old' pos_new' : Z) (m : BciMap) :
  pos_old <= pos_old' -> pos_new <= pos_new' ->
  Forall (behind pos_old pos_new) m -> Forall (behind pos_old' pos_new') m.
Proof.
  intros Ho Hn. apply Forall_impl. unfold behind. intros f. lia.
Qed.

Lemma store_fragment_ordered (m : BciMap) (pos_old st_new end_new : Z) :
  fragments_ordered m -> Forall (behind pos_old st_new) m ->
  0 <= st_new -> st_new < end_new ->
  fragments_ordered (Map.store_fragment_location m pos_old st_new end_new).
Proof.
  intros [Hne Hsorted] Hbehind Hst Hend.
  unfold Map.store_fragment_location. split.
  - apply Forall_app. split; [assumption|].
    constructor; [|constructor]. split; assumption.
  - apply StronglySorted_snoc; [assumption|].
    revert Hbehind. apply Forall_impl.
    unfold behind, fragment_before. cbn. intros f. lia.
Qed.

Section ScanInvariant.

Variables old_cp new_cp : constantPoolOop.

Lemma switchable_loop_fragments (todo_old : list Instruction) :
  forall (pos_old : Z) (s_new : BytecodeStream) (bci_map : BciMap)
         (fwd_jmps : list Z),
    0 <= _next_bci s_new ->
    fragments_ordered bci_map ->
    Forall (behind pos_old (_next_bci s_new)) bci_map ->
    fragments_ordered
      (snd (fst (switchable_loop old_cp new_cp todo_old pos_old s_new
                   bci_map fwd_jmps))).
Proof.
  induction todo_old as [|i rest IH];
    intros pos_old s_new bci_map fwd_jmps Hpos Hord Hbehind;
    cbn [switchable_loop].
  - assumption.
  - rewrite java_code_nonneg.
    destruct (Stream.next s_new) as [c_new s1] eqn:Hnext.
    destruct (c_new <? 0) eqn:Hc; [assumption|].
    destruct (next_delivers _ _ _ Hnext Hc) as [Hbci1 Hlen1].
    destruct (fetch_next_bci pos_old i rest) as [_ Hold].
    destruct (same_insn _ _ _ _ _ _ _ _) as [same fwd1].
    destruct same; cbn [negb].
    + apply IH; [lia|assumption|].
      revert Hbehind. apply behind_weaken; lia.
    + destruct (find_match _ _ _ _ _ _ _ _) as [[s2|] fwd2] eqn:Hfind;
        [|assumption].
      apply find_match_position in Hfind.
      unfold Stream.bci. cbn [Stream.fetch _bci].
      apply IH; [lia| |].
      * apply store_fragment_ordered; [assumption| |lia|lia].
        revert Hbehind. apply behind_weaken; lia.
      * unfold Map.store_fragment_location. apply Forall_app. split.
        -- revert Hbehind. apply behind_weaken; lia.
        -- constructor; [|constructor]. unfold behind. cbn. lia.
Qed.

End ScanInvariant.

(** C9: in the position map that a run of [methods_switchable] leaves,
    whatever it answers, every fragment has [0 <= new_st_bci < new_end_bci],
    and of any two fragments the one recorded first has the smaller
    [old_bci] and ends in the new code at or before the start of the
    other. *)
Theorem recorded_fragments_ordered (old_method new_method : methodOop) :
  fragments_ordered (snd (methods_switchable old_method new_method [])).
Proof.
  assert (Hnil : fragments_ordered []) by (split; constructor).
  unfold methods_switchable.
  destruct (code_size old_method >? code_size new_method); [exact Hnil|].
  destruct (negb (negb _)); [exact Hnil|].
  pose proof (switchable_loop_fragments (constants old_method)
                (constants new_method) (_todo (Stream.init old_method))
                (_next_bci (Stream.init old_method)) (Stream.init new_method)
                [] []) as Hloop.
  destruct (switchable_loop _ _ _ _ _ _ _) as [[scanned bci_map] fwd_jmps].
  cbn [fst snd] in Hloop.
  assert (Hmap : fragments_ordered bci_map).
  { apply Hloop; [cbn; lia|exact Hnil|constructor]. }
  destruct scanned; cbn [negb]; [|exact Hmap].
  destruct (test_fwd_jmps _ _ _ _); exact Hmap.
Qed.

(** * Code behind the last matched instruction *)

Section Trailing.

Variables old_cp new_cp : constantPoolOop.
Variable extra : list Instruction.

Lemma int_at_new_extend (s_new : BytecodeStream) (a k : Z) :
  int_at_new (extend s_new extra) a k = int_at_new s_new a k.
Proof. reflexivity. Qed.

Lemma lookupswitch_pairs_extend (s_old s_new : BytecodeStream) (a_old a_new : Z)
  (n : nat) :
  forall (i : Z) (fwd_jmps : list Z),
    lookupswitch_pairs s_old (extend s_new extra) a_old a_new n i fwd_jmps
    = lookupswitch_pairs s_old s_new a_old a_new n i fwd_jmps.
Proof.
  induction n as [|n IH]; intros i fwd_jmps; cbn [lookupswitch_pairs].
  - reflexivity.
  - rewrite !int_at_new_extend, IH. reflexivity.
Qed.

Lemma tableswitch_slots_extend (s_old s_new : BytecodeStream) (a_old a_new : Z)
  (n : nat) :
  forall (i : Z) (fwd_jmps : list Z),
    tableswitch_slots s_old (extend s_new extra) a_old a_new n i fwd_jmps
    = tableswitch_slots s_old s_new a_old a_new n i fwd_jmps.
Proof.
  induction n as [|n IH]; intros i fwd_jmps; cbn [tableswitch_slots].
  - reflexivity.
  - rewrite !int_at_new_extend, IH. reflexivity.
Qed.

Lemma switch_same_extend (switchable : bool) (s_old s_new : BytecodeStream)
  (bci_map : BciMap) (fwd_jmps : list Z) (c_old : Code) :
  switch_same
    (comparing old_cp new_cp switchable s_old (extend s_new extra) bci_map
       fwd_jmps) c_old
  = switch_same
      (comparing old_cp new_cp switchable s_old s_new bci_map fwd_jmps) c_old.
Proof.
  unfold switch_same, comparing.
  cbn [_s_old _s_new _switchable_test _fwd_jmps].
  cbv zeta.
  change (Stream.aligned (extend s_new extra)) with (Stream.aligned s_new).
  change (Stream.bci (extend s_new extra)) with (Stream.bci s_new).
  change (Stream.insn_size (extend s_new extra))
    with (Stream.insn_size s_new).
  change (Stream.memcmp_ne s_old (extend s_new extra))
    with (Stream.memcmp_ne s_old s_new).
  rewrite !int_at_new_extend, lookupswitch_pairs_extend,
    tableswitch_slots_extend.
  reflexivity.
Qed.

Lemma branch_same_extend (switchable : bool) (s_old s_new : BytecodeStream)
  (bci_map : BciMap) (fwd_jmps : list Z) (old_ofs new_ofs : Z) :
  branch_same
    (comparing old_cp new_cp switchable s_old (extend s_new extra) bci_map
       fwd_jmps) old_ofs new_ofs
  = branch_same
      (comparing old_cp new_cp switchable s_old s_new bci_map fwd_jmps)
      old_ofs new_ofs.
Proof. reflexivity. Qed.

(** [args_same] reads the current instruction of a cursor, never what the
    cursor has still to deliver. *)
Lemma args_same_extend (switchable : bool) (s_old s_new : BytecodeStream)
  (bci_map : BciMap) (fwd_jmps : list Z) (c_old c_new : Code) :
  args_same
    (comparing old_cp new_cp switchable s_old (extend s_new extra) bci_map
       fwd_jmps) c_old c_new
  = args_same
      (comparing old_cp new_cp switchable s_old s_new bci_map fwd_jmps)
      c_old c_new.
Proof.
  unfold args_same. cbv zeta.
  rewrite !branch_same_extend, switch_same_extend.
  cbn [comparing _s_old _s_new _old_cp _new_cp _bci_map _switchable_test
       _fwd_jmps].
  change (Stream.bcp (extend s_new extra)) with (Stream.bcp s_new).
  change (Stream.get_index_big (extend s_new extra))
    with (Stream.get_index_big s_new).
  change (Stream.get_index_int (extend s_new extra))
    with (Stream.get_index_int s_new).
  change (Stream.get_index (extend s_new extra))
    with (Stream.get_index s_new).
  change (Stream.is_wide (extend s_new extra)) with (Stream.is_wide s_new).
  change (Stream.get_Java_u4 (extend s_new extra))
    with (Stream.get_Java_u4 s_new).
  reflexivity.
Qed.

Lemma same_insn_extend (s_old s_new : BytecodeStream) (bci_map : BciMap)
  (fwd_jmps : list Z) (c_old c_new : Code) :
  same_insn old_cp new_cp s_old (extend s_new extra) bci_map fwd_jmps
    c_old c_new
  = same_insn old_cp new_cp s_old s_new bci_map fwd_jmps c_old c_new.
Proof. unfold same_insn. rewrite args_same_extend. reflexivity. Qed.
Lemma find_match_extend (s_old : BytecodeStream) (c_old : Code)
  (bci_map : BciMap) (todo_new : list Instruction) :
  forall (pos_new : Z) (fwd_jmps fwd_jmps' : list Z) (s : BytecodeStream),
    find_match old_cp new_cp s_old c_old bci_map todo_new pos_new fwd_jmps
    = (Some s, fwd_jmps') ->
    find_match old_cp new_cp s_old c_old bci_map (todo_new ++ extra) pos_new
      fwd_jmps
    = (Some (extend s extra), fwd_jmps').
Proof.
  induction todo_new as [|i rest IH]; intros pos_new fwd_jmps fwd_jmps' s;
    cbn [find_match app].
  - discriminate.
  - change (Stream.fetch pos_new i (rest ++ extra))
      with (extend (Stream.fetch pos_new i rest) extra).
    rewrite same_insn_extend.
    destruct (same_insn _ _ _ _ _ _ _ _) as [same fwd1].
    destruct same.
    + intros H. inversion H; subst. reflexivity.
    + rewrite java_code_nonneg. intros H. apply IH in H. exact H.
Qed.

Lemma switchable_loop_extend (todo_old : list Instruction) :
  forall (pos_old : Z) (s_new : BytecodeStream) (bci_map bci_map' : BciMap)
         (fwd_jmps fwd_jmps' : list Z),
    switchable_loop old_cp new_cp todo_old pos_old s_new bci_map fwd_jmps
    = (true, bci_map', fwd_jmps') ->
    switchable_loop old_cp new_cp todo_old pos_old (extend s_new extra)
      bci_map fwd_jmps
    = (true, bci_map', fwd_jmps').
Proof.
  induction todo_old as [|i rest IH];
    intros pos_old s_new bci_map bci_map' fwd_jmps fwd_jmps';
    cbn [switchable_loop].
  - trivial.
  - rewrite java_code_nonneg. unfold Stream.next.
    cbn [extend _todo _next_bci].
    destruct (_todo s_new) as [|j todo_new]; [discriminate|].
    cbn [app].
    change (Stream.fetch (_next_bci s_new) j (todo_new ++ extra))
      with (extend (Stream.fetch (_next_bci s_new) j todo_new) extra).
    destruct (Stream.java_code j <? 0); [trivial|].
    rewrite same_insn_extend.
    destruct (same_insn _ _ _ _ _ _ _ _) as [same fwd1].
    destruct same; cbn [negb].
    + apply IH.
    + cbn [extend _todo _next_bci Stream.fetch].
      destruct (find_match _ _ _ _ _ todo_new _ _) as [[s2|] fwd2] eqn:Hfind;
        [|discriminate].
      rewrite (find_match_extend _ _ _ _ _ _ _ _ Hfind).
      apply IH.
Qed.

End Trailing.

(** C10: when [methods_switchable] answers true, it gives the same answer
    and the same position map with any instructions added behind the end of
    the new body: what lies behind the instruction matched last is neither
    compared nor recorded. *)
Theorem trailing_code_ignored (old_method new_method : methodOop)
  (extra : list Instruction) (bci_map bci_map' : BciMap) :
  methods_switchable old_method new_method bci_map = (true, bci_map') ->
  methods_switchable old_method (append_code new_method extra) bci_map
  = (true, bci_map').
Proof.
  unfold methods_switchable.
  change (check_stack_and_locals_size old_method
            (append_code new_method extra))
    with (check_stack_and_locals_size old_method new_method).
  change (constants (append_code new_method extra))
    with (constants new_method).
  change (Stream.init (append_code new_method extra))
    with (extend (Stream.init new_method) extra).
  destruct (code_size old_method >? code_size new_method) eqn:Hsize;
    [discriminate|].
  replace (code_size old_method >? code_size (append_code new_method extra))
    with false.
  2:{ symmetry. rewrite Z.gtb_ltb in *. apply Z.ltb_ge.
      apply Z.ltb_ge in Hsize.
      unfold code_size in *. cbn [append_code code].
      rewrite code_length_app. pose proof (code_length_nonneg extra). lia. }
  destruct (negb (negb _)); [discriminate|].
  destruct (switchable_loop _ _ _ _ (Stream.init new_method) _ _)
    as [[scanned m1] fwd1] eqn:Hloop.
  destruct scanned; cbn [negb]; [|discriminate].
  rewrite (switchable_loop_extend _ _ _ _ _ _ _ _ _ _ Hloop).
  trivial.
Qed.

Lemma trailing_code_ignored_witness :
  methods_switchable Sample.A
    (append_code (Sample.with_max_stack Sample.B 2) [Sample.nop]) []
  = (true, []).
Proof.
  apply (trailing_code_ignored Sample.A (Sample.with_max_stack Sample.B 2)
           [Sample.nop] [] []).
  reflexivity.
Defined.

(** * What an exact match guarantees *)

(** X1: a pair that [methods_EMCP] accepts has the same code size, operand
    stack depth, number of locals and parameter size. *)
Theorem EMCP_same_sizes (old_method new_method : methodOop) :
  methods_EMCP old_method new_method = true ->
  code_size old_method = code_size new_method
  /\ max_stack old_method = max_stack new_method
  /\ max_locals old_method = max_locals new_method
  /\ size_of_parameters old_method = size_of_parameters new_method.
Proof.
  unfold methods_EMCP, check_stack_and_locals_size.
  destruct (code_size old_method =? code_size new_method) eqn:Hsize;
    [|discriminate].
  destruct (max_stack old_method =? max_stack new_method) eqn:Hstack;
    [|discriminate].
  destruct (max_locals old_method =? max_locals new_method) eqn:Hlocals;
    [|discriminate].
  destruct (size_of_parameters old_method =? size_of_parameters new_method)
    eqn:Hparams; [|discriminate].
  intros _. repeat split; now apply Z.eqb_eq.
Qed.

Lemma EMCP_same_sizes_witness :
  code_size Sample.A = code_size Sample.B
  /\ max_stack Sample.A = max_stack Sample.B
  /\ max_locals Sample.A = max_locals Sample.B
  /\ size_of_parameters Sample.A = size_of_parameters Sample.B.
Proof. apply (EMCP_same_sizes Sample.A Sample.B). reflexivity. Defined.

Lemma EMCP_loop_opcodes (old_cp new_cp : constantPoolOop)
  (todo_old : list Instruction) :
  forall (pos_old : Z) (s_new : BytecodeStream),
    EMCP_loop old_cp new_cp todo_old pos_old s_new = true ->
    exists rest, opcodes (_todo s_new) = opcodes todo_old ++ rest.
Proof.
  induction todo_old as [|i rest_old IH]; intros pos_old s_new;
    cbn [EMCP_loop].
  - intros _. now exists (opcodes (_todo s_new)).
  - rewrite java_code_nonneg. unfold Stream.next.
    destruct (_todo s_new) as [|j todo_new]; [discriminate|].
    destruct (Stream.java_code j <? 0); [discriminate|]. cbn [orb].
    destruct (Stream.java_code i =? Stream.java_code j) eqn:Hcode;
      [|discriminate].
    cbn [negb]. destruct (negb (fst _)); [discriminate|].
    intros Hloop. apply IH in Hloop. destruct Hloop as [rest Hrest].
    cbn [Stream.fetch _todo] in Hrest.
    exists rest. unfold opcodes in *. cbn [map app].
    apply Z.eqb_eq in Hcode. now rewrite Hrest, Hcode.
Qed.

(** X2: a pair that [methods_EMCP] accepts agrees on its opcodes,
    instruction by instruction, for as long as the old body runs. *)
Theorem EMCP_same_opcodes (old_method new_method : methodOop) :
  methods_EMCP old_method new_method = true ->
  exists rest,
    opcodes (code new_method) = opcodes (code old_method) ++ rest.
Proof.
  unfold methods_EMCP.
  destruct (negb (code_size old_method =? code_size new_method));
    [discriminate|].
  destruct (negb (check_stack_and_locals_size old_method new_method =? 0));
    [discriminate|].
  intros Hloop. apply EMCP_loop_opcodes in Hloop. exact Hloop.
Qed.

Lemma EMCP_same_opcodes_witness :
  exists rest,
    opcodes (code Sample.B) = opcodes (code Sample.A) ++ rest.
Proof. apply (EMCP_same_opcodes Sample.A Sample.B). reflexivity. Defined.

(** * What a switchable match guarantees *)

Lemma subsequence_refl {A : Type} (l : list A) : subsequence l l.
Proof. induction l; now constructor. Qed.

Lemma subsequence_app_skip {A : Type} (skipped l l' : list A) :
  subsequence l l' -> subsequence l (skipped ++ l').
Proof. intros H. induction skipped; cbn [app]; [exact H|now constructor]. Qed.

Section ScanOpcodes.

Variables old_cp new_cp : constantPoolOop.

Lemma same_insn_opcode (s_old s_new : BytecodeStream) (bci_map : BciMap)
  (fwd_jmps fwd_jmps' : list Z) (c_old c_new : Code) :
  same_insn old_cp new_cp s_old s_new bci_map fwd_jmps c_old c_new
  = (true, fwd_jmps') ->
  c_old = c_new.
Proof.
  unfold same_insn. destruct (c_old =? c_new) eqn:Hc; [|discriminate].
  intros _. now apply Z.eqb_eq.
Qed.

(** The resynchronisation stops on an instruction of the old opcode, with
    what follows it still to read. *)
Lemma find_match_opcode (s_old : BytecodeStream) (c_old : Code)
  (bci_map : BciMap) (todo_new : list Instruction) :
  forall (pos_new : Z) (fwd_jmps fwd_jmps' : list Z) (s : BytecodeStream),
    find_match old_cp new_cp s_old c_old bci_map todo_new pos_new fwd_jmps
    = (Some s, fwd_jmps') ->
    exists skipped j,
      todo_new = skipped ++ j :: _todo s /\ Stream.java_code j = c_old.
Proof.
  induction todo_new as [|i rest IH]; intros pos_new fwd_jmps fwd_jmps' s;
    cbn [find_match].
  - discriminate.
  - destruct (same_insn _ _ _ _ _ _ _ _) as [same fwd1] eqn:Hsame.
    destruct same.
    + intros H. inversion H; subst. exists [], i. split; [reflexivity|].
      symmetry. exact (same_insn_opcode _ _ _ _ _ _ _ Hsame).
    + rewrite java_code_nonneg. intros H. apply IH in H.
      destruct H as (skipped & j & Hrest & Hj).
      exists (i :: skipped), j. split; [now rewrite Hrest|exact Hj].
Qed.

Lemma switchable_loop_opcodes (todo_old : list Instruction) :
  forall (pos_old : Z) (s_new : BytecodeStream) (bci_map bci_map' : BciMap)
         (fwd_jmps fwd_jmps' : list Z),
    switchable_loop old_cp new_cp todo_old pos_old s_new bci_map fwd_jmps
    = (true, bci_map', fwd_jmps') ->
    subsequence (opcodes todo_old) (opcodes (_todo s_new)).
Proof.
  induction todo_old as [|i rest_old IH];
    intros pos_old s_new bci_map bci_map' fwd_jmps fwd_jmps';
    cbn [switchable_loop].
  - intros _. constructor.
  - rewrite java_code_nonneg. unfold Stream.next.
    destruct (_todo s_new) as [|j todo_new]; [discriminate|].
    destruct (Stream.java_code j <? 0); [discriminate|].
    destruct (same_insn _ _ _ _ _ _ _ _) as [same fwd1] eqn:Hsame.
    destruct same; cbn [negb].
    + intros Hloop. apply IH in Hloop. cbn [Stream.fetch _todo] in Hloop.
      apply same_insn_opcode in Hsame.
      unfold opcodes in *. cbn [map]. rewrite Hsame. now constructor.
    + cbn [Stream.fetch _todo _next_bci].
      destruct (find_match _ _ _ _ _ _ _ _) as [[s2|] fwd2] eqn:Hfind;
        [|discriminate].
      intros Hloop. apply IH in Hloop.
      apply find_match_opcode in Hfind.
      destruct Hfind as (skipped & k & Hrest & Hk).
      unfold opcodes in *. cbn [map]. constructor.
      rewrite Hrest, map_app. apply subsequence_app_skip.
      cbn [map]. rewrite Hk. now constructor.
Qed.

End ScanOpcodes.

(** X3: when [methods_switchable] answers true, the opcodes of the old
    body are those of the new body with some left out: no old instruction
    is dropped and none changes place. *)
Theorem switchable_keeps_old_opcodes (old_method new_method : methodOop)
  (bci_map bci_map' : BciMap) :
  methods_switchable old_method new_method bci_map = (true, bci_map') ->
  subsequence (opcodes (code old_method)) (opcodes (code new_method)).
Proof.
  unfold methods_switchable.
  destruct (code_size old_method >? code_size new_method); [discriminate|].
  destruct (negb (negb _)); [discriminate|].
  destruct (switchable_loop _ _ _ _ _ _ _) as [[scanned m1] fwd1] eqn:Hloop.
  destruct scanned; cbn [negb]; [|discriminate].
  intros _. apply switchable_loop_opcodes in Hloop. exact Hloop.
Qed.

Lemma switchable_keeps_old_opcodes_witness :
  subsequence (opcodes (code Sample.A))
    (opcodes (code (Sample.with_max_stack Sample.B' 2))).
Proof.
  apply (switchable_keeps_old_opcodes Sample.A
           (Sample.with_max_stack Sample.B' 2) [] [mkFragment 1 1 2]).
  reflexivity.
Defined.

(** * Pending jumps *)

Lemma appends_pairs_refl (fwd_jmps : list Z) : appends_pairs fwd_jmps fwd_jmps.
Proof. exists []. split; [now rewrite app_nil_r|reflexivity]. Qed.

Lemma appends_pairs_trans (a b c : list Z) :
  appends_pairs a b -> appends_pairs b c -> appends_pairs a c.
Proof.
  intros (x & -> & Hx) (y & -> & Hy). exists (x ++ y). split.
  - now rewrite app_assoc.
  - rewrite length_app, Nat.even_add, Hx, Hy. reflexivity.
Qed.

Lemma appends_pairs_two (fwd_jmps : list Z) (a b : Z) :
  appends_pairs fwd_jmps (fwd_jmps ++ [a; b]).
Proof. exists [a; b]. split; reflexivity. Qed.

Lemma lookupswitch_pairs_appends (s_old s_new : BytecodeStream)
  (a_old a_new : Z) (n : nat) :
  forall (i : Z) (fwd_jmps : list Z),
    appends_pairs fwd_jmps
      (snd (lookupswitch_pairs s_old s_new a_old a_new n i fwd_jmps)).
Proof.
  induction n as [|n IH]; intros i fwd_jmps; cbn [lookupswitch_pairs].
  - apply appends_pairs_refl.
  - destruct (negb _); [apply appends_pairs_refl|].
    eapply appends_pairs_trans; [apply appends_pairs_two|apply IH].
Qed.

Lemma tableswitch_slots_appends (s_old s_new : BytecodeStream)
  (a_old a_new : Z) (n : nat) :
  forall (i : Z) (fwd_jmps : list Z),
    appends_pairs fwd_jmps
      (tableswitch_slots s_old s_new a_old a_new n i fwd_jmps).
Proof.
  induction n as [|n IH]; intros i fwd_jmps; cbn [tableswitch_slots].
  - apply appends_pairs_refl.
  - eapply appends_pairs_trans; [apply appends_pairs_two|apply IH].
Qed.

Lemma branch_same_appends (st : MethodComparator) (old_ofs new_ofs : Z) :
  appends_pairs (_fwd_jmps st) (snd (branch_same st old_ofs new_ofs)).
Proof.
  unfold branch_same.
  repeat match goal with
         | |- context [if ?b then _ else _] => destruct b
         end;
    cbn [snd]; first [apply appends_pairs_refl | apply appends_pairs_two].
Qed.

Lemma switch_same_appends (st : MethodComparator) (c_old : Code) :
  appends_pairs (_fwd_jmps st) (snd (switch_same st c_old)).
Proof.
  unfold switch_same. cbv zeta.
  destruct (_switchable_test st).
  - destruct (c_old =? _lookupswitch).
    + destruct (negb _); cbn [snd]; [apply appends_pairs_two|].
      eapply appends_pairs_trans;
        [apply appends_pairs_two|apply lookupswitch_pairs_appends].
    + destruct (c_old =? _tableswitch); [|apply appends_pairs_two].
      destruct (negb _); cbn [snd]; [apply appends_pairs_two|].
      destruct (negb _); cbn [snd]; [apply appends_pairs_two|].
      eapply appends_pairs_trans;
        [apply appends_pairs_two|apply tableswitch_slots_appends].
  - destruct (negb _); cbn [snd]; [apply appends_pairs_refl|].
    destruct (Stream.memcmp_ne _ _ _); apply appends_pairs_refl.
Qed.

(** One comparison of operands leaves the pending jumps as they were or
    puts whole (old target, new target) pairs behind them. *)
Lemma args_same_appends (st : MethodComparator) (c_old c_new : Code) :
  appends_pairs (_fwd_jmps st) (snd (args_same st c_old c_new)).
Proof.
  unfold args_same. cbv zeta.
  repeat match goal with
         | |- context [if ?b then _ else _] => destruct b
         end;
    cbn [snd];
    first [ apply appends_pairs_refl
          | apply branch_same_appends
          | apply switch_same_appends ].
Qed.

Section ScanPending.

Variables old_cp new_cp : constantPoolOop.

Lemma same_insn_appends (s_old s_new : BytecodeStream) (bci_map : BciMap)
  (fwd_jmps : list Z) (c_old c_new : Code) :
  appends_pairs fwd_jmps
    (snd (same_insn old_cp new_cp s_old s_new bci_map fwd_jmps c_old c_new)).
Proof.
  unfold same_insn. destruct (c_old =? c_new).
  - apply (args_same_appends
             (comparing old_cp new_cp true s_old s_new bci_map fwd_jmps)).
  - apply appends_pairs_refl.
Qed.

Lemma find_match_appends (s_old : BytecodeStream) (c_old : Code)
  (bci_map : BciMap) (todo_new : list Instruction) :
  forall (pos_new : Z) (fwd_jmps : list Z),
    appends_pairs fwd_jmps
      (snd (find_match old_cp new_cp s_old c_old bci_map todo_new pos_new
              fwd_jmps)).
Proof.
  induction todo_new as [|i rest IH]; intros pos_new fwd_jmps;
    cbn [find_match].
  - apply appends_pairs_refl.
  - pose proof (same_insn_appends s_old (Stream.fetch pos_new i rest) bci_map
                  fwd_jmps c_old (Stream.java_code i)) as Hsame.
    destruct (same_insn _ _ _ _ _ _ _ _) as [same fwd1]. cbn [snd] in Hsame.
    destruct same; [exact Hsame|].
    rewrite java_code_nonneg.
    eapply appends_pairs_trans; [exact Hsame|apply IH].
Qed.

Lemma switchable_loop_appends (todo_old : list Instruction) :
  forall (pos_old : Z) (s_new : BytecodeStream) (bci_map : BciMap)
         (fwd_jmps : list Z),
    appends_pairs fwd_jmps
      (snd (switchable_loop old_cp new_cp todo_old pos_old s_new bci_map
              fwd_jmps)).
Proof.
  induction todo_old as [|i rest IH];
    intros pos_old s_new bci_map fwd_jmps; cbn [switchable_loop].
  - apply appends_pairs_refl.
  - rewrite java_code_nonneg.
    destruct (Stream.next s_new) as [c_new s1].
    destruct (c_new <? 0); [apply appends_pairs_refl|].
    pose proof (same_insn_appends (Stream.fetch pos_old i rest) s1 bci_map
                  fwd_jmps (Stream.java_code i) c_new) as Hsame.
    destruct (same_insn _ _ _ _ _ _ _ _) as [same fwd1]. cbn [snd] in Hsame.
    destruct same; cbn [negb].
    + eapply appends_pairs_trans; [exact Hsame|apply IH].
    + pose proof (find_match_appends (Stream.fetch pos_old i rest)
                    (Stream.java_code i) bci_map (_todo s1) (_next_bci s1)
                    fwd1) as Hfind.
      destruct (find_match _ _ _ _ _ _ _ _) as [[s2|] fwd2];
        cbn [snd] in Hfind.
      * eapply appends_pairs_trans; [exact Hsame|].
        eapply appends_pairs_trans; [exact Hfind|apply IH].
      * eapply appends_pairs_trans; [exact Hsame|exact Hfind].
Qed.

End ScanPending.

(** X4: the pending jumps that the scan of [methods_switchable] hands to
    the final test are whole pairs: their number is even, so the test,
    which walks [length / 2] pairs, leaves no entry out. A failed
    comparison may have left pairs there too. *)
Theorem pending_jumps_are_pairs (old_cp new_cp : constantPoolOop)
  (todo_old : list Instruction) (pos_old : Z) (s_new : BytecodeStream)
  (bci_map : BciMap) :
  Nat.even
    (List.length
       (snd (switchable_loop old_cp new_cp todo_old pos_old s_new bci_map [])))
  = true.
Proof.
  destruct (switchable_loop_appends old_cp new_cp todo_old pos_old s_new
              bci_map []) as (added & Hadded & Heven).
  rewrite Hadded. exact Heven.
Qed.

(** * Operands that are, and are not, compared *)

(** X5: for an opcode that is no [case] label of the [switch],
    [args_same] answers true whatever the operands are and leaves the pending
    jumps alone. [newarray] is such an opcode: its element type is not
    compared. *)
Theorem uncompared_opcode_same (st : MethodComparator) (c_old c_new : Code) :
  compared c_old = false ->
  args_same st c_old c_new = (true, _fwd_jmps st).
Proof.
  unfold compared, one_of. cbn [existsb]. intros H.
  repeat (apply orb_false_elim in H; destruct H as [?H H]).
  unfold args_same, one_of. cbn [existsb].
  repeat match goal with
         | Heq : (c_old =? _) = false |- _ => rewrite Heq; clear Heq
         end.
  reflexivity.
Qed.

Lemma uncompared_opcode_same_witness :
  args_same
    (Sample.at_first false Sample.no_constants Sample.no_constants
       (Sample.newarray x0a) (Sample.newarray x0b))
    188 188
  = (true, []).
Proof.
  apply (uncompared_opcode_same
           (Sample.at_first false Sample.no_constants Sample.no_constants
              (Sample.newarray x0a) (Sample.newarray x0b))
           188 188).
  reflexivity.
Defined.

Lemma symbol_ne_false (a b : symbol) : symbol_ne a b = false <-> a = b.
Proof.
  unfold symbol_ne. rewrite negb_false_iff. apply String.eqb_eq.
Qed.

Lemma args_same_class (st : MethodComparator) (c_old c_new : Code) :
  one_of c_old [_new; _anewarray; _multianewarray; _checkcast; _instanceof]
  = true ->
  args_same st c_old c_new
  = if symbol_ne
         (klass_at_noresolve (_old_cp st) (Stream.get_index_big (_s_old st)))
         (klass_at_noresolve (_new_cp st) (Stream.get_index_big (_s_new st)))
    then (false, _fwd_jmps st)
    else if (c_old =? _multianewarray)
            && negb (Stream.bcp (_s_old st) 3 =? Stream.bcp (_s_new st) 3)
    then (false, _fwd_jmps st)
    else (true, _fwd_jmps st).
Proof. intros H. case_labels H; reflexivity. Qed.

(** X6: two allocation or type-check instructions ([new], [anewarray],
    [multianewarray], [checkcast], [instanceof]) compare as the same exactly
    when the class names their operands resolve to are equal and, for
    [multianewarray], the dimension bytes are equal; the raw indices play no
    part. *)
Theorem class_operand_rule (st : MethodComparator) (c_old c_new : Code) :
  one_of c_old [_new; _anewarray; _multianewarray; _checkcast; _instanceof]
  = true ->
  fst (args_same st c_old c_new) = true
  <-> klass_at_noresolve (_old_cp st) (Stream.get_index_big (_s_old st))
      = klass_at_noresolve (_new_cp st) (Stream.get_index_big (_s_new st))
      /\ (c_old = _multianewarray ->
          Stream.bcp (_s_old st) 3 = Stream.bcp (_s_new st) 3).
Proof.
  intros Hc. rewrite (args_same_class st c_old c_new Hc).
  destruct (symbol_ne _ _) eqn:Hname.
  - split; [discriminate|]. intros [Heq _].
    apply symbol_ne_false in Heq. congruence.
  - apply symbol_ne_false in Hname.
    destruct (c_old =? _multianewarray) eqn:Hmulti; cbn [andb].
    + destruct (Stream.bcp (_s_old st) 3 =? Stream.bcp (_s_new st) 3)
        eqn:Hdim; cbn [negb fst].
      * apply Z.eqb_eq in Hdim. tauto.
      * apply Z.eqb_neq in Hdim. apply Z.eqb_eq in Hmulti.
        split; [discriminate|]. intros [_ H]. now apply H in Hmulti.
    + apply Z.eqb_neq in Hmulti. cbn [fst]. tauto.
Qed.

Lemma class_operand_rule_witness :
  fst (args_same
         (Sample.at_first false
            (Sample.class_pool 2 "java/lang/Object")
            (Sample.class_pool 7 "java/lang/Object")
            (Sample.new_object x00 x02) (Sample.new_object x00 x07))
         _new _new)
  = true.
Proof.
  apply (proj2 (class_operand_rule
                  (Sample.at_first false
                     (Sample.class_pool 2 "java/lang/Object")
                     (Sample.class_pool 7 "java/lang/Object")
                     (Sample.new_object x00 x02) (Sample.new_object x00 x07))
                  _new _new eq_refl)).
  split; [reflexivity|]. intros H. discriminate H.
Defined.

Lemma args_same_member (st : MethodComparator) (c_old c_new : Code) :
  one_of c_old [_getstatic; _putstatic; _getfield; _putfield;
                _invokevirtual; _invokespecial; _invokestatic;
                _invokeinterface]
  = true ->
  args_same st c_old c_new
  = let cpci_old := Stream.get_index_int (_s_old st) in
    let cpci_new := Stream.get_index_int (_s_new st) in
    if symbol_ne (klass_ref_at_noresolve (_old_cp st) cpci_old)
                 (klass_ref_at_noresolve (_new_cp st) cpci_new)
       || symbol_ne (name_ref_at (_old_cp st) cpci_old)
                    (name_ref_at (_new_cp st) cpci_new)
       || symbol_ne (signature_ref_at (_old_cp st) cpci_old)
                    (signature_ref_at (_new_cp st) cpci_new)
    then (false, _fwd_jmps st)
    else (true, _fwd_jmps st).
Proof. intros H. case_labels H; reflexivity. Qed.

(** X7: two field or invoke instructions compare as the same exactly when
    their operands resolve to the same class name, member name and
    signature; the raw indices play no part. *)
Theorem member_operand_rule (st : MethodComparator) (c_old c_new : Code) :
  one_of c_old [_getstatic; _putstatic; _getfield; _putfield;
                _invokevirtual; _invokespecial; _invokestatic;
                _invokeinterface]
  = true ->
  let cpci_old := Stream.get_index_int (_s_old st) in
  let cpci_new := Stream.get_index_int (_s_new st) in
  fst (args_same st c_old c_new) = true
  <-> klass_ref_at_noresolve (_old_cp st) cpci_old
      = klass_ref_at_noresolve (_new_cp st) cpci_new
      /\ name_ref_at (_old_cp st) cpci_old = name_ref_at (_new_cp st) cpci_new
      /\ signature_ref_at (_old_cp st) cpci_old
         = signature_ref_at (_new_cp st) cpci_new.
Proof.
  intros Hc cpci_old cpci_new.
  rewrite (args_same_member st c_old c_new Hc). cbv zeta.
  fold cpci_old cpci_new.
  rewrite <- !symbol_ne_false.
  destruct (symbol_ne (klass_ref_at_noresolve _ _) _),
    (symbol_ne (name_ref_at _ _) _), (symbol_ne (signature_ref_at _ _) _);
    cbn [orb fst]; intuition discriminate.
Qed.

Lemma member_operand_rule_witness :
  fst (args_same
         (Sample.at_first false
            (Sample.member_pool 3 "java/io/PrintStream" "println" "(I)V")
            (Sample.member_pool 9 "java/io/PrintStream" "println" "(I)V")
            (Sample.invokevirtual x00 x03) (Sample.invokevirtual x00 x09))
         _invokevirtual _invokevirtual)
  = true.
Proof.
  apply (proj2 (member_operand_rule
                  (Sample.at_first false
                     (Sample.member_pool 3 "java/io/PrintStream" "println"
                        "(I)V")
                     (Sample.member_pool 9 "java/io/PrintStream" "println"
                        "(I)V")
                     (Sample.invokevirtual x00 x03)
                     (Sample.invokevirtual x00 x09))
                  _invokevirtual _invokevirtual eq_refl)).
  repeat split.
Defined.

(** * Switch instructions in exact mode *)

Lemma args_same_switch (st : MethodComparator) (c_old c_new : Code) :
  one_of c_old [_lookupswitch; _tableswitch] = true ->
  args_same st c_old c_new = switch_same st c_old.
Proof. intros H. case_labels H; reflexivity. Qed.

Lemma bcp_fetch (pos : Z) (i : Instruction) (rest : list Instruction)
  (k : nat) :
  Stream.bcp (Stream.fetch pos i rest) (Z.of_nat k)
  = u1 (nth k (insn_bytes i) x00).
Proof.
  unfold Stream.bcp. cbn [Stream.fetch _insn].
  replace (Z.of_nat k <? 0) with false by (symmetry; apply Z.ltb_ge; lia).
  now rewrite Nat2Z.id.
Qed.

Lemma memcmp_ne_fetch (pos pos' : Z) (i i' : Instruction)
  (rest rest' : list Instruction) :
  List.length (insn_bytes i) = List.length (insn_bytes i') ->
  Stream.memcmp_ne (Stream.fetch pos i rest) (Stream.fetch pos' i' rest')
    (insn_length i)
  = false
  <-> insn_bytes i = insn_bytes i'.
Proof.
  intros Hlen. unfold Stream.memcmp_ne, insn_length.
  rewrite negb_false_iff, forallb_forall, Nat2Z.id. split.
  - intros Hall. apply (nth_ext _ _ x00 x00 Hlen). intros k Hk.
    apply u1_inj.
    specialize (Hall k). rewrite !bcp_fetch in Hall.
    apply Z.eqb_eq, Hall, in_seq. lia.
  - intros Heq k _. rewrite !bcp_fetch, Heq. apply Z.eqb_refl.
Qed.

(** X8: in exact mode two [tableswitch] or two [lookupswitch] instructions
    compare as the same exactly when they are the same bytes, padding
    included. *)
Theorem switch_exact_rule (old_cp new_cp : constantPoolOop)
  (pos pos' : Z) (i i' : Instruction) (rest rest' : list Instruction)
  (bci_map : BciMap) (fwd_jmps : list Z) (c_old c_new : Code) :
  one_of c_old [_lookupswitch; _tableswitch] = true ->
  fst (args_same
         (comparing old_cp new_cp false (Stream.fetch pos i rest)
            (Stream.fetch pos' i' rest') bci_map fwd_jmps)
         c_old c_new)
  = true
  <-> insn_bytes i = insn_bytes i'.
Proof.
  intros Hc. rewrite (args_same_switch _ c_old c_new Hc).
  unfold switch_same.
  cbn [comparing _s_old _s_new _switchable_test _fwd_jmps]. cbv zeta.
  unfold Stream.insn_size. cbn [Stream.fetch _bci _next_bci].
  replace (pos + insn_length i - pos) with (insn_length i) by lia.
  replace (pos' + insn_length i' - pos') with (insn_length i') by lia.
  destruct (insn_length i =? insn_length i') eqn:Hlen; cbn [negb].
  - apply Z.eqb_eq in Hlen.
    assert (Hlen' : List.length (insn_bytes i) = List.length (insn_bytes i'))
      by (unfold insn_length in Hlen; lia).
    rewrite <- (memcmp_ne_fetch pos pos' i i' rest rest' Hlen').
    destruct (Stream.memcmp_ne _ _ _); cbn [fst]; intuition congruence.
  - apply Z.eqb_neq in Hlen. cbn [fst]. split; [discriminate|].
    intros Heq. unfold insn_length in Hlen. rewrite Heq in Hlen. congruence.
Qed.

Lemma switch_exact_rule_witness :
  fst (args_same
         (comparing Sample.no_constants Sample.no_constants false
            (Stream.fetch 0 (Sample.tableswitch_one x10 x00) [])
            (Stream.fetch 0 (Sample.tableswitch_one x10 x00) []) [] [])
         _tableswitch _tableswitch)
  = true.
Proof.
  apply (proj2 (switch_exact_rule Sample.no_constants Sample.no_constants
                  0 0 (Sample.tableswitch_one x10 x00)
                  (Sample.tableswitch_one x10 x00) [] []
                  [] [] _tableswitch _tableswitch eq_refl)).
  reflexivity.
Defined.

(** * Switch instructions in switchable mode *)

(** X9: in switchable mode a comparison of two [tableswitch] or two
    [lookupswitch] instructions puts the pair of their default targets on
    the pending jumps before it looks at anything else, so the pair is
    there whether the comparison then succeeds or fails. *)
Theorem switch_default_pair_pending (st : MethodComparator)
  (c_old c_new : Code) :
  one_of c_old [_lookupswitch; _tableswitch] = true ->
  _switchable_test st = true ->
  exists more,
    snd (args_same st c_old c_new)
    = _fwd_jmps st
      ++ [Int.add (Stream.bci (_s_old st))
            (int_at_old (_s_old st) (Stream.aligned (_s_old st)) 0);
          Int.add (Stream.bci (_s_new st))
            (int_at_new (_s_new st) (Stream.aligned (_s_new st)) 0)]
      ++ more.
Proof.
  intros Hc Hmode. rewrite (args_same_switch st c_old c_new Hc).
  unfold switch_same. rewrite Hmode. cbv zeta.
  set (d_old := Int.add (Stream.bci (_s_old st)) _).
  set (d_new := Int.add (Stream.bci (_s_new st)) _).
  assert (Hgrow : forall r,
             appends_pairs (_fwd_jmps st ++ [d_old; d_new]) r ->
             exists more, r = _fwd_jmps st ++ [d_old; d_new] ++ more).
  { intros r (more & -> & _). exists more. now rewrite <- app_assoc. }
  destruct (c_old =? _lookupswitch).
  - destruct (negb _); cbn [snd].
    + apply Hgrow, appends_pairs_refl.
    + apply Hgrow, lookupswitch_pairs_appends.
  - destruct (c_old =? _tableswitch).
    + destruct (negb _); cbn [snd]; [apply Hgrow, appends_pairs_refl|].
      destruct (negb _); cbn [snd]; [apply Hgrow, appends_pairs_refl|].
      apply Hgrow, tableswitch_slots_appends.
    + apply Hgrow, appends_pairs_refl.
Qed.

Lemma switch_default_pair_pending_witness :
  exists more,
    snd (args_same
           (Sample.at_first true Sample.no_constants Sample.no_constants
              (Sample.tableswitch_one x10 x00)
              (Sample.tableswitch_one x0c x01))
           _tableswitch _tableswitch)
    = [] ++ [16; 12] ++ more.
Proof.
  apply (switch_default_pair_pending
           (Sample.at_first true Sample.no_constants Sample.no_constants
              (Sample.tableswitch_one x10 x00)
              (Sample.tableswitch_one x0c x01))
           _tableswitch _tableswitch eq_refl eq_refl).
Defined.

(** * Where fragments lie *)

Section ScanBoundaries.

Variables old_cp new_cp : constantPoolOop.

(** The resynchronisation stops at the start of an instruction of the
    code it was given, and what is left to read is the rest of that
    code. *)
Lemma find_match_boundary (s_old : BytecodeStream) (c_old : Code)
  (bci_map : BciMap) (todo_new : list Instruction) :
  forall (pos_new : Z) (fwd_jmps fwd_jmps' : list Z) (s : BytecodeStream),
    find_match old_cp new_cp s_old c_old bci_map todo_new pos_new fwd_jmps
    = (Some s, fwd_jmps') ->
    In (_bci s) (starts pos_new todo_new)
    /\ incl (starts (_next_bci s) (_todo s)) (starts pos_new todo_new).
Proof.
  induction todo_new as [|i rest IH]; intros pos_new fwd_jmps fwd_jmps' s;
    cbn [find_match].
  - discriminate.
  - destruct (same_insn _ _ _ _ _ _ _ _) as [same fwd1].
    destruct same.
    + intros H. inversion H; subst.
      cbn [Stream.fetch _bci _next_bci _todo starts]. split.
      * now left.
      * apply incl_tl, incl_refl.
    + rewrite java_code_nonneg. intros H. apply IH in H.
      cbn [Stream.fetch _next_bci] in H. destruct H as [Hin Hincl].
      cbn [starts]. split.
      * now right.
      * now apply incl_tl.
Qed.

Lemma switchable_loop_map (todo_old : list Instruction) :
  forall (pos_old : Z) (s_new : BytecodeStream) (bci_map : BciMap)
         (fwd_jmps : list Z),
  exists added,
    snd (fst (switchable_loop old_cp new_cp todo_old pos_old s_new bci_map
                fwd_jmps))
    = bci_map ++ added
    /\ Forall (on_boundaries pos_old todo_old (_next_bci s_new) (_todo s_new))
              added.
Proof.
  induction todo_old as [|i rest IH];
    intros pos_old s_new bci_map fwd_jmps; cbn [switchable_loop].
  - exists []. split; [now rewrite app_nil_r|constructor].
  - rewrite java_code_nonneg. unfold Stream.next.
    destruct (_todo s_new) as [|j todo_new].
    { exists []. split; [now rewrite app_nil_r|constructor]. }
    destruct (Stream.java_code j <? 0).
    { exists []. split; [now rewrite app_nil_r|constructor]. }
    destruct (same_insn _ _ _ _ _ _ _ _) as [same fwd1].
    destruct same; cbn [negb].
    + destruct (IH (_next_bci (Stream.fetch pos_old i rest))
                  (Stream.fetch (_next_bci s_new) j todo_new) bci_map fwd1)
        as (added & Hmap & Hadded).
      exists added. split; [exact Hmap|].
      revert Hadded. apply Forall_impl. intros f (Ho & Hs & He).
      cbn [Stream.fetch _next_bci _todo] in *.
      repeat split; cbn [starts]; now right.
    + cbn [Stream.fetch _todo _next_bci].
      destruct (find_match _ _ _ _ _ _ _ _) as [[s2|] fwd2] eqn:Hfind.
      2:{ exists []. split; [now rewrite app_nil_r|constructor]. }
      apply find_match_boundary in Hfind. destruct Hfind as [Hend Hincl].
      unfold Stream.bci. cbn [Stream.fetch _bci].
      destruct (IH (pos_old + insn_length i) s2
                  (Map.store_fragment_location bci_map pos_old
                     (_next_bci s_new) (_bci s2)) fwd2)
        as (added & Hmap & Hadded).
      exists (mkFragment pos_old (_next_bci s_new) (_bci s2) :: added).
      split.
      * rewrite Hmap. unfold Map.store_fragment_location.
        now rewrite <- app_assoc.
      * constructor.
        -- repeat split; cbn [old_bci new_st_bci new_end_bci starts];
             [now left|now left|now right].
        -- revert Hadded. apply Forall_impl. intros f (Ho & Hs & He).
           repeat split; cbn [starts]; right; auto.
Qed.

End ScanBoundaries.

(** X10: [methods_switchable] only ever adds to the position map it is
    given: the fragments that were there stay, in their order, before the
    new ones. *)
Theorem switchable_extends_map (old_method new_method : methodOop)
  (bci_map : BciMap) :
  exists added,
    snd (methods_switchable old_method new_method bci_map)
    = bci_map ++ added.
Proof.
  unfold methods_switchable.
  destruct (code_size old_method >? code_size new_method).
  { exists []. now rewrite app_nil_r. }
  destruct (negb (negb _)).
  { exists []. now rewrite app_nil_r. }
  destruct (switchable_loop_map (constants old_method)
              (constants new_method) (_todo (Stream.init old_method))
              (_next_bci (Stream.init old_method)) (Stream.init new_method)
              bci_map []) as (added & Hmap & _).
  destruct (switchable_loop _ _ _ _ _ _ _) as [[scanned m1] fwd1].
  cbn [fst snd] in Hmap. exists added.
  destruct scanned; cbn [negb]; [|exact Hmap].
  destruct (test_fwd_jmps _ _ _ _); exact Hmap.
Qed.

(** X11: every fragment that a run of [methods_switchable] records
    diverges at the bci of an instruction of the old body, and starts and
    ends at the bci of an instruction of the new body. *)
Theorem fragments_on_instruction_starts (old_method new_method : methodOop) :
  Forall
    (fun f =>
       In (old_bci f) (starts 0 (code old_method))
       /\ In (new_st_bci f) (starts 0 (code new_method))
       /\ In (new_end_bci f) (starts 0 (code new_method)))
    (snd (methods_switchable old_method new_method [])).
Proof.
  unfold methods_switchable.
  destruct (code_size old_method >? code_size new_method); [constructor|].
  destruct (negb (negb _)); [constructor|].
  destruct (switchable_loop_map (constants old_method)
              (constants new_method) (_todo (Stream.init old_method))
              (_next_bci (Stream.init old_method)) (Stream.init new_method)
              [] []) as (added & Hmap & Hadded).
  destruct (switchable_loop _ _ _ _ _ _ _) as [[scanned m1] fwd1].
  cbn [fst snd app] in Hmap. subst m1.
  cbn [Stream.init _todo _next_bci] in Hadded.
  destruct scanned; cbn [negb]; [|exact Hadded].
  destruct (test_fwd_jmps _ _ _ _); exact Hadded.
Qed.

(** * Float literals *)

Lemma IEEE_zero_not_nan (a : Z) :
  IEEE.is_zero IEEE.binary32 a = true -> IEEE.is_nan IEEE.binary32 a = false.
Proof.
  unfold IEEE.is_zero, IEEE.is_nan. intros H. apply Z.eqb_eq in H.
  rewrite H. reflexivity.
Qed.

(** X12: two [ldc] (or [ldc_w]) instructions that load float literals
    never compare as the same when one of the literals is a NaN, and always
    do when both are zeros, of whichever sign. *)
Theorem float_literal_rule (st : MethodComparator) (c_old c_new : Code) :
  one_of c_old [_ldc; _ldc_w] = true ->
  let cpi_old := ldc_index c_old (_s_old st) in
  let cpi_new := ldc_index c_old (_s_new st) in
  Tag.is_float (tag_at (_old_cp st) cpi_old) = true ->
  Tag.is_float (tag_at (_new_cp st) cpi_new) = true ->
  let a := float_at (_old_cp st) cpi_old in
  let b := float_at (_new_cp st) cpi_new in
  (IEEE.is_nan IEEE.binary32 a = true \/ IEEE.is_nan IEEE.binary32 b = true ->
   fst (args_same st c_old c_new) = false)
  /\ (IEEE.is_zero IEEE.binary32 a = true ->
      IEEE.is_zero IEEE.binary32 b = true ->
      fst (args_same st c_old c_new) = true).
Proof.
  intros Hldc cpi_old cpi_new Ho Hn a b.
  rewrite (args_same_ldc st c_old c_new Hldc). cbv zeta.
  fold cpi_old cpi_new. fold a b.
  unfold Tag.is_int, Tag.is_float in *.
  apply Z.eqb_eq in Ho, Hn. rewrite Ho, Hn. cbn.
  unfold jfloat_ne, IEEE.ne, IEEE.eq. split.
  - intros [H|H]; rewrite H; cbn [negb andb]; [reflexivity|].
    now rewrite andb_false_r.
  - intros Ha Hb. rewrite (IEEE_zero_not_nan a Ha), (IEEE_zero_not_nan b Hb).
    rewrite Ha, Hb. cbn [negb andb]. now rewrite orb_true_r.
Qed.

Lemma float_literal_rule_witness :
  fst (args_same
         (Sample.at_first false (Sample.float_pool 0)
            (Sample.float_pool 0x80000000) (Sample.ldc x01) (Sample.ldc x01))
         _ldc _ldc)
  = true.
Proof.
  apply (proj2 (float_literal_rule
                  (Sample.at_first false (Sample.float_pool 0)
                     (Sample.float_pool 0x80000000) (Sample.ldc x01)
                     (Sample.ldc x01))
                  _ldc _ldc eq_refl eq_refl eq_refl));
    reflexivity.
Defined.

(** * The cache of class path entries *)

Section CacheFacts.

Context {ClassPathEntry Stat : Type}.
Variable os_stat : string -> option Stat.
Variable create_class_path_entry : string -> Stat -> option ClassPathEntry.

Lemma search_found (path : string)
  (entries : list (CachedClassPathEntry ClassPathEntry)) :
  forall (i j : nat) (ccpe : CachedClassPathEntry ClassPathEntry),
    search path entries i = Some (j, ccpe) ->
    exists before after,
      entries = before ++ ccpe :: after
      /\ j = (i + List.length before)%nat
      /\ _path ccpe = path
      /\ Forall (fun x => _path x <> path) before.
Proof.
  induction entries as [|x rest IH]; intros i j ccpe; cbn [search].
  - discriminate.
  - destruct (String.eqb (_path x) path) eqn:Hx.
    + intros H. inversion H; subst. exists [], rest.
      apply String.eqb_eq in Hx. cbn. repeat split; [lia|exact Hx|constructor].
    + intros H. apply IH in H.
      destruct H as (before & after & -> & -> & Hp & Hall).
      exists (x :: before), after. cbn. repeat split; [lia|exact Hp|].
      constructor; [now apply String.eqb_neq|exact Hall].
Qed.

Lemma search_missing (path : string)
  (entries : list (CachedClassPathEntry ClassPathEntry)) (i : nat) :
  search path entries i = None ->
  Forall (fun x => _path x <> path) entries.
Proof.
  revert i. induction entries as [|x rest IH]; intros i; cbn [search].
  - constructor.
  - destruct (String.eqb (_path x) path) eqn:Hx; [discriminate|].
    intros H. constructor; [now apply String.eqb_neq|now apply (IH (S i))].
Qed.

Lemma remove_at_middle
  (before after : list (CachedClassPathEntry ClassPathEntry))
  (ccpe : CachedClassPathEntry ClassPathEntry) :
  GrowableArray.remove_at (List.length before) (before ++ ccpe :: after)
  = before ++ after.
Proof.
  unfold GrowableArray.remove_at.
  induction before as [|b before IH]; cbn [List.length firstn skipn app].
  - reflexivity.
  - f_equal. exact IH.
Qed.

(** What a call does, told without indices: on a hit the element found
    goes to the front; on a miss a new element is put there, if the file
    system yields one. *)
Lemma find_cases (entries : list (CachedClassPathEntry ClassPathEntry))
  (path : string) :
  (exists before after e,
      entries = before ++ mkCached path e :: after
      /\ Forall (fun x => _path x <> path) before
      /\ find_classpath_entry_from_cache os_stat create_class_path_entry
           entries path
         = (Some e, mkCached path e :: before ++ after))
  \/ (Forall (fun x => _path x <> path) entries
      /\ ((exists e,
              find_classpath_entry_from_cache os_stat create_class_path_entry
                entries path
              = (Some e, mkCached path e :: entries))
          \/ find_classpath_entry_from_cache os_stat create_class_path_entry
               entries path
             = (None, entries))).
Proof.
  unfold find_classpath_entry_from_cache.
  destruct (search path entries 0) as [[i ccpe]|] eqn:Hsearch.
  - left. apply search_found in Hsearch.
    destruct Hsearch as (before & after & -> & -> & Hp & Hall).
    destruct ccpe as [p e]. cbn [_path _entry] in *. subst p.
    exists before, after, e. repeat split; [exact Hall|].
    cbn [Nat.add].
    destruct before as [|b before]; cbn [List.length Nat.eqb negb].
    + reflexivity.
    + change (S (List.length before)) with (List.length (b :: before)).
      rewrite remove_at_middle. reflexivity.
  - right. apply search_missing in Hsearch. split; [exact Hsearch|].
    destruct (os_stat path) as [st|]; [|now right].
    destruct (create_class_path_entry path st) as [e|]; [|now right].
    left. now exists e.
Qed.

Lemma cached_entry_skip (path : string)
  (before rest : list (CachedClassPathEntry ClassPathEntry)) :
  Forall (fun x => _path x <> path) before ->
  cached_entry path (before ++ rest) = cached_entry path rest.
Proof.
  induction 1 as [|x before Hx _ IH]; cbn [app cached_entry].
  - reflexivity.
  - apply String.eqb_neq in Hx. now rewrite Hx.
Qed.

Lemma cached_entry_front (path : string) (e : ClassPathEntry)
  (rest : list (CachedClassPathEntry ClassPathEntry)) :
  cached_entry path (mkCached path e :: rest) = Some e.
Proof. cbn [cached_entry _path _entry]. now rewrite String.eqb_refl. Qed.

Lemma cached_entry_move (q : string)
  (x : CachedClassPathEntry ClassPathEntry)
  (before after : list (CachedClassPathEntry ClassPathEntry)) :
  _path x <> q ->
  cached_entry q (x :: before ++ after)
  = cached_entry q (before ++ x :: after).
Proof.
  intros Hx. apply String.eqb_neq in Hx.
  induction before as [|b before IH]; cbn [app cached_entry] in *.
  - reflexivity.
  - rewrite Hx in *. destruct (String.eqb (_path b) q); [reflexivity|].
    exact IH.
Qed.

(** X13: the entry a call returns is at the beginning of the cache
    afterwards, under the path asked for. *)
Theorem cache_recent_first
  (entries entries' : list (CachedClassPathEntry ClassPathEntry))
  (path : string) (e : ClassPathEntry) :
  find_classpath_entry_from_cache os_stat create_class_path_entry entries path
  = (Some e, entries') ->
  exists rest, entries' = mkCached path e :: rest.
Proof.
  intros Hfind.
  destruct (find_cases entries path)
    as [(before & after & e0 & _ & _ & H)|[_ [[e0 H]|H]]];
    rewrite H in Hfind; inversion Hfind; subst; eauto.
Qed.

(** X14: asking again for a path that was just served gives the same
    entry and leaves the cache as it is; the file system is not asked. *)
Theorem cache_lookup_stable
  (entries entries' : list (CachedClassPathEntry ClassPathEntry))
  (path : string) (e : ClassPathEntry) :
  find_classpath_entry_from_cache os_stat create_class_path_entry entries path
  = (Some e, entries') ->
  forall (os_stat' : string -> option Stat)
         (create' : string -> Stat -> option ClassPathEntry),
    find_classpath_entry_from_cache os_stat' create' entries' path
    = (Some e, entries').
Proof.
  intros Hfind os_stat' create'.
  destruct (cache_recent_first _ _ _ _ Hfind) as [rest ->].
  unfold find_classpath_entry_from_cache. cbn [search _path].
  now rewrite String.eqb_refl.
Qed.

(** X15: a call that returns NULL leaves the cache unchanged, and the
    path was not in it. *)
Theorem cache_failure_unchanged
  (entries entries' : list (CachedClassPathEntry ClassPathEntry))
  (path : string) :
  find_classpath_entry_from_cache os_stat create_class_path_entry entries path
  = (None, entries') ->
  entries' = entries /\ cached_entry path entries = None.
Proof.
  intros Hfind.
  destruct (find_cases entries path)
    as [(before & after & e0 & _ & _ & H)|[Hall [[e0 H]|H]]];
    rewrite H in Hfind; inversion Hfind; subst.
  split; [reflexivity|].
  rewrite <- (app_nil_r entries'). now apply cached_entry_skip.
Qed.

(** X16: a path that is in the cache is served from it, whatever the file
    system says, and the cache afterwards holds the same elements as
    before. *)
Theorem cache_hit
  (entries : list (CachedClassPathEntry ClassPathEntry))
  (path : string) (e : ClassPathEntry) :
  cached_entry path entries = Some e ->
  fst (find_classpath_entry_from_cache os_stat create_class_path_entry
         entries path)
  = Some e
  /\ Permutation
       (snd (find_classpath_entry_from_cache os_stat create_class_path_entry
               entries path))
       entries.
Proof.
  intros Hcached.
  destruct (find_cases entries path)
    as [(before & after & e0 & -> & Hall & H)|[Hall _]].
  - rewrite H. cbn [fst snd].
    rewrite (cached_entry_skip _ _ _ Hall), cached_entry_front in Hcached.
    inversion Hcached; subst. split; [reflexivity|].
    apply Permutation_middle.
  - rewrite <- (app_nil_r entries) in Hcached.
    rewrite (cached_entry_skip _ _ _ Hall) in Hcached. discriminate Hcached.
Qed.

(** X17: a call for one path does not change what the cache holds for any
    other path. *)
Theorem cache_other_paths
  (entries : list (CachedClassPathEntry ClassPathEntry)) (path q : string) :
  q <> path ->
  cached_entry q
    (snd (find_classpath_entry_from_cache os_stat create_class_path_entry
            entries path))
  = cached_entry q entries.
Proof.
  intros Hq.
  assert (Hne : forall e : ClassPathEntry, _path (mkCached path e) <> q)
    by (intros e; cbn [_path]; congruence).
  destruct (find_cases entries path)
    as [(before & after & e0 & -> & _ & H)|[_ [[e0 H]|H]]];
    rewrite H; cbn [snd].
  - now apply cached_entry_move.
  - cbn [cached_entry _path].
    replace (String.eqb path q) with false; [reflexivity|].
    symmetry. apply String.eqb_neq. congruence.
  - reflexivity.
Qed.

(** X18: if no two elements of the cache have the same path, that is
    still so after a call. *)
Theorem cache_paths_distinct
  (entries : list (CachedClassPathEntry ClassPathEntry)) (path : string) :
  NoDup (map _path entries) ->
  NoDup
    (map _path
       (snd (find_classpath_entry_from_cache os_stat create_class_path_entry
               entries path))).
Proof.
  intros Hnodup.
  destruct (find_cases entries path)
    as [(before & after & e0 & -> & _ & H)|[Hall [[e0 H]|H]]];
    rewrite H; cbn [snd].
  - rewrite map_app in Hnodup. cbn [map _path] in *.
    rewrite map_app. apply NoDup_cons.
    + apply NoDup_remove_2 in Hnodup. exact Hnodup.
    + apply NoDup_remove_1 in Hnodup. exact Hnodup.
  - cbn [map _path]. apply NoDup_cons; [|exact Hnodup].
    rewrite in_map_iff. intros (x & Hx & Hin).
    rewrite Forall_forall in Hall. now apply (Hall x Hin).
  - exact Hnodup.
Qed.

End CacheFacts.

Lemma cache_recent_first_witness :
  exists rest,
    [mkCached "b.jar" 5%nat; mkCached "a.jar" 5%nat]
    = mkCached "b.jar" 5%nat :: rest.
Proof.
  apply (cache_recent_first ClassLoaderExt.two_jars ClassLoaderExt.numbered
           [mkCached "a.jar" 5%nat] _ "b.jar" 5%nat).
  reflexivity.
Defined.

Lemma cache_lookup_stable_witness :
  find_classpath_entry_from_cache ClassLoaderExt.two_jars
    ClassLoaderExt.numbered
    [mkCached "a.jar" 5%nat; mkCached "b.jar" 5%nat] "a.jar"
  = (Some 5%nat, [mkCached "a.jar" 5%nat; mkCached "b.jar" 5%nat]).
Proof.
  apply (cache_lookup_stable ClassLoaderExt.two_jars ClassLoaderExt.numbered
           [mkCached "b.jar" 5%nat; mkCached "a.jar" 5%nat] _ "a.jar" 5%nat).
  reflexivity.
Defined.

Lemma cache_failure_unchanged_witness :
  [mkCached "a.jar" 5%nat] = [mkCached "a.jar" 5%nat]
  /\ cached_entry "c.jar" [mkCached "a.jar" 5%nat] = None.
Proof.
  apply (cache_failure_unchanged ClassLoaderExt.two_jars
           ClassLoaderExt.numbered [mkCached "a.jar" 5%nat] _ "c.jar").
  reflexivity.
Defined.

Lemma cache_hit_witness :
  fst (find_classpath_entry_from_cache ClassLoaderExt.two_jars
         ClassLoaderExt.numbered
         [mkCached "b.jar" 5%nat; mkCached "a.jar" 7%nat] "a.jar")
  = Some 7%nat
  /\ Permutation
       (snd (find_classpath_entry_from_cache ClassLoaderExt.two_jars
               ClassLoaderExt.numbered
               [mkCached "b.jar" 5%nat; mkCached "a.jar" 7%nat] "a.jar"))
       [mkCached "b.jar" 5%nat; mkCached "a.jar" 7%nat].
Proof.
  apply (cache_hit ClassLoaderExt.two_jars ClassLoaderExt.numbered
           [mkCached "b.jar" 5%nat; mkCached "a.jar" 7%nat] "a.jar" 7%nat).
  reflexivity.
Defined.

Lemma cache_other_paths_witness :
  cached_entry "a.jar"
    (snd (find_classpath_entry_from_cache ClassLoaderExt.two_jars
            ClassLoaderExt.numbered [mkCached "a.jar" 7%nat] "b.jar"))
  = cached_entry "a.jar" [mkCached "a.jar" 7%nat].
Proof.
  apply (cache_other_paths ClassLoaderExt.two_jars ClassLoaderExt.numbered
           [mkCached "a.jar" 7%nat] "b.jar" "a.jar").
  discriminate.
Defined.

Lemma cache_paths_distinct_witness :
  NoDup
    (map _path
       (snd (find_classpath_entry_from_cache ClassLoaderExt.two_jars
               ClassLoaderExt.numbered [mkCached "a.jar" 7%nat] "b.jar"))).
Proof.
  apply (cache_paths_distinct ClassLoaderExt.two_jars ClassLoaderExt.numbered
           [mkCached "a.jar" 7%nat] "b.jar").
  repeat constructor. intros [].
Defined.

(** * C strings *)

Section CStringFacts.

Lemma eqb_NUL_false (c : ascii) : c <> NUL -> Ascii.eqb c NUL = false.
Proof. intros H. now apply Ascii.eqb_neq. Qed.

Lemma strlen_app_NUL (s rest : list ascii) :
  Forall (fun c => c <> NUL) s ->
  strlen (s ++ NUL :: rest) = List.length s.
Proof.
  induction 1 as [|x s Hx _ IH]; cbn [app strlen List.length].
  - now rewrite Ascii.eqb_refl.
  - now rewrite (eqb_NUL_false x Hx), IH.
Qed.

Lemma strlen_all (s : list ascii) :
  Forall (fun c => c <> NUL) s -> strlen s = List.length s.
Proof.
  induction 1 as [|x s Hx _ IH]; cbn [strlen List.length].
  - reflexivity.
  - now rewrite (eqb_NUL_false x Hx), IH.
Qed.

Lemma c_string_app_NUL (s rest : list ascii) :
  Forall (fun c => c <> NUL) s -> c_string (s ++ NUL :: rest) = s.
Proof.
  intros H. unfold c_string. rewrite (strlen_app_NUL s rest H).
  rewrite firstn_app, Nat.sub_diag, firstn_all. cbn [firstn].
  apply app_nil_r.
Qed.

Lemma c_string_all (s : list ascii) :
  Forall (fun c => c <> NUL) s -> c_string s = s.
Proof.
  intros H. unfold c_string. rewrite (strlen_all s H). apply firstn_all.
Qed.

Lemma c_string_no_NUL (s : list ascii) :
  Forall (fun c => c <> NUL) (c_string s).
Proof.
  unfold c_string. induction s as [|x s IH]; cbn [strlen firstn].
  - constructor.
  - destruct (Ascii.eqb x NUL) eqn:Hx; cbn [firstn]; [constructor|].
    constructor; [now apply Ascii.eqb_neq|exact IH].
Qed.

Lemma strchr_none (c : ascii) (s : list ascii) :
  Forall (fun x => x <> c) s -> strchr s c = None.
Proof.
  induction 1 as [|x s Hx _ IH]; cbn [strchr].
  - reflexivity.
  - apply Ascii.eqb_neq in Hx. rewrite Hx, IH.
    now destruct (Ascii.eqb x NUL).
Qed.

Lemma strchr_none_NUL (c : ascii) (s rest : list ascii) :
  c <> NUL ->
  Forall (fun x => x <> c) s -> strchr (s ++ NUL :: rest) c = None.
Proof.
  intros Hc. induction 1 as [|x s Hx _ IH]; cbn [app strchr].
  - replace (Ascii.eqb NUL c) with false
      by (symmetry; apply Ascii.eqb_neq; congruence).
    now rewrite Ascii.eqb_refl.
  - apply Ascii.eqb_neq in Hx. rewrite Hx, IH.
    now destruct (Ascii.eqb x NUL).
Qed.

Lemma strchr_some (c : ascii) (line rest : list ascii) :
  Forall (fun x => x <> c) line ->
  Forall (fun x => x <> NUL) line ->
  strchr (line ++ c :: rest) c = Some (List.length line).
Proof.
  intros Hc Hnul. induction Hc as [|x line Hx _ IH];
    cbn [app strchr List.length].
  - now rewrite Ascii.eqb_refl.
  - inversion Hnul as [|? ? Hx0 Hline]; subst.
    apply Ascii.eqb_neq in Hx. rewrite Hx, (eqb_NUL_false x Hx0).
    now rewrite (IH Hline).
Qed.

(** A text has no [c], or a first one. *)
Lemma first_occurrence (c : ascii) (s : list ascii) :
  Forall (fun x => x <> c) s
  \/ exists line rest, s = line ++ c :: rest /\ Forall (fun x => x <> c) line.
Proof.
  induction s as [|x s IH].
  - left. constructor.
  - destruct (Ascii.eqb x c) eqn:Hx.
    + apply Ascii.eqb_eq in Hx. subst. right. exists [], s. now split.
    + apply Ascii.eqb_neq in Hx. destruct IH as [IH|(line & rest & -> & Hl)].
      * left. now constructor.
      * right. exists (x :: line), rest. split; [reflexivity|].
        now constructor.
Qed.

Lemma strncmp_eq_starts_with (needle s : list ascii) :
  Forall (fun c => c <> NUL) needle ->
  strncmp_eq needle s (List.length needle) = starts_with needle s.
Proof.
  intros H. revert s.
  induction H as [|x needle Hx _ IH]; intros s;
    cbn [strncmp_eq starts_with List.length hd tl].
  - reflexivity.
  - destruct s as [|y s]; cbn [hd tl].
    + now rewrite (eqb_NUL_false x Hx).
    + destruct (Ascii.eqb x y); cbn [andb]; [|reflexivity].
      now rewrite (eqb_NUL_false x Hx), IH.
Qed.

Lemma starts_with_line (c : ascii) (needle line rest : list ascii) :
  Forall (fun x => x <> c) needle ->
  starts_with needle (line ++ c :: rest) = starts_with needle line.
Proof.
  intros H. revert line.
  induction H as [|x needle Hx _ IH]; intros line; cbn [starts_with].
  - reflexivity.
  - destruct line as [|y line]; cbn [app starts_with].
    + apply Ascii.eqb_neq in Hx. now rewrite Hx.
    + now rewrite IH.
Qed.

Lemma store_middle (before line after : list ascii) (c x : ascii) :
  store (before ++ line ++ c :: after)
    (List.length before + List.length line) x
  = before ++ line ++ x :: after.
Proof.
  unfold store.
  induction before as [|b before IH];
    cbn [List.length app Nat.add firstn skipn].
  - induction line as [|l line IHl];
      cbn [List.length app firstn skipn].
    + reflexivity.
    + f_equal. exact IHl.
  - f_equal. exact IH.
Qed.

Lemma skipn_length_app (before rest : list ascii) :
  skipn (List.length before) (before ++ rest) = rest.
Proof.
  rewrite skipn_app, skipn_all, Nat.sub_diag. reflexivity.
Qed.

End CStringFacts.

(** * The Class-Path attribute *)

Section ManifestFacts.

Import Manifest.

Lemma tag_no_NUL : Forall (fun c => c <> NUL) tag.
Proof. repeat (constructor; [discriminate|]). constructor. Qed.

Lemma tag_no_newline : Forall (fun c => c <> newline) tag.
Proof. repeat (constructor; [discriminate|]). constructor. Qed.

Lemma tag_len_length : tag_len = List.length tag.
Proof. reflexivity. Qed.

Lemma starts_with_split (needle s : list ascii) :
  starts_with needle s = true ->
  s = needle ++ skipn (List.length needle) s.
Proof.
  revert s. induction needle as [|x needle IH]; intros s;
    cbn [starts_with List.length skipn app].
  - reflexivity.
  - destruct s as [|y s]; [discriminate|].
    intros H. apply andb_prop in H. destruct H as [Hxy Hrest].
    apply Ascii.eqb_eq in Hxy. subst y. f_equal. now apply IH.
Qed.

Lemma lines_of_no_newline (s : list ascii) :
  Forall (fun c => c <> newline) s -> lines_of s = ([], s).
Proof.
  induction 1 as [|x s Hx _ IH]; cbn [lines_of].
  - reflexivity.
  - rewrite IH. apply Ascii.eqb_neq in Hx. now rewrite Hx.
Qed.

Lemma lines_of_line (line rest : list ascii) :
  Forall (fun c => c <> newline) line ->
  lines_of (line ++ newline :: rest)
  = (line :: fst (lines_of rest), snd (lines_of rest)).
Proof.
  induction 1 as [|x line Hx _ IH]; cbn [app lines_of].
  - destruct (lines_of rest) as [lines tail]. now rewrite Ascii.eqb_refl.
  - rewrite IH. apply Ascii.eqb_neq in Hx. now rewrite Hx.
Qed.

Lemma points_at_app (buf more : list ascii) (found : option nat)
  (value : option (list ascii)) :
  points_at buf found value -> points_at (buf ++ more) found value.
Proof.
  unfold points_at. destruct found as [p|], value as [s|]; trivial.
  intros (before & after & -> & Hp & Hs).
  exists before, (after ++ more). repeat split; [|exact Hp|exact Hs].
  now rewrite <- !app_assoc.
Qed.


Lemma class_path_loop_spec (fuel : nat) :
  forall (rest done : list ascii) (found : option nat)
         (value : option (list ascii)) (warnings : nat),
    (List.length rest <= fuel)%nat ->
    Forall (fun c => c <> NUL) rest ->
    points_at done found value ->
    exists found' manifest' warnings',
      class_path_loop fuel (done ++ rest)
        (List.length done + List.length rest) (List.length done) found
        warnings
      = (found', manifest', warnings')
      /\ points_at manifest' found'
           (last_class_path (fst (lines_of rest)) value)
      /\ warnings'
         = (warnings
            + duplicate_warnings (fst (lines_of rest)) (is_some found))%nat.
Proof.
  induction fuel as [|fuel IH];
    intros rest done found value warnings Hfuel Hnul Hpoints;
    cbn [class_path_loop].
  - destruct rest as [|x rest]; [|cbn in Hfuel; lia].
    exists found, (done ++ []), warnings. cbn. repeat split; [|lia].
    now apply points_at_app.
  - destruct rest as [|x rest'] eqn:Hrest.
    { replace (List.length done <? List.length done + List.length [])%nat
        with false by (symmetry; apply Nat.ltb_ge; cbn; lia).
      exists found, (done ++ []), warnings. cbn. repeat split; [|lia].
      now apply points_at_app. }
    rewrite <- Hrest in *. clear Hrest x rest'.
    destruct (first_occurrence newline rest)
      as [Hnone|(line & rest' & -> & Hline)].
    + (* no newline left: the loop ends *)
      destruct (List.length done <? _)%nat.
      * rewrite skipn_length_app, (strchr_none _ _ Hnone).
        exists found, (done ++ rest), warnings.
        rewrite (lines_of_no_newline _ Hnone). cbn. repeat split; [|lia].
        now apply points_at_app.
      * exists found, (done ++ rest), warnings.
        rewrite (lines_of_no_newline _ Hnone). cbn. repeat split; [|lia].
        now apply points_at_app.
    + (* a line that ends in a newline *)
      apply Forall_app in Hnul. destruct Hnul as [Hline_nul Hrest_nul].
      inversion Hrest_nul as [|? ? _ Hrest'_nul]; subst.
      replace (List.length done
               <? List.length done + List.length (line ++ newline :: rest'))%nat
        with true
        by (symmetry; apply Nat.ltb_lt; rewrite length_app; cbn; lia).
      rewrite skipn_length_app, (strchr_some _ _ _ Hline Hline_nul).
      rewrite tag_len_length, (strncmp_eq_starts_with _ _ tag_no_NUL).
      rewrite (starts_with_line _ _ _ _ tag_no_newline).
      rewrite (lines_of_line _ _ Hline). cbn [fst last_class_path
                                                duplicate_warnings].
      rewrite <- tag_len_length.
      rewrite length_app in Hfuel. cbn [List.length] in Hfuel.
      destruct (starts_with tag line) eqn:Htag.
      * rewrite store_middle.
        pose proof (starts_with_split _ _ Htag) as Hsplit.
        rewrite <- tag_len_length in Hsplit.
        destruct (IH rest' (done ++ line ++ [NUL])
                    (Some (List.length done + tag_len)%nat)
                    (Some (skipn tag_len line))
                    (match found with
                     | Some _ => S warnings
                     | None => warnings
                     end))
          as (found' & manifest' & warnings' & Hloop & Hpts & Hwarn).
        -- lia.
        -- exact Hrest'_nul.
        -- exists (done ++ tag), []. repeat split.
           ++ rewrite Hsplit at 1. now rewrite <- !app_assoc.
           ++ rewrite length_app, tag_len_length. reflexivity.
           ++ rewrite Hsplit in Hline_nul.
              apply Forall_app in Hline_nul. tauto.
        -- exists found', manifest', warnings'.
           repeat split; [|exact Hpts|].
           ++ rewrite <- Hloop. f_equal.
              ** now rewrite <- !app_assoc.
              ** rewrite !length_app. cbn [List.length]. lia.
              ** rewrite !length_app. cbn [List.length]. lia.
           ++ rewrite Hwarn. cbn [is_some]. destruct found; cbn; lia.
      * destruct (IH rest' (done ++ line ++ [newline]) found value warnings)
          as (found' & manifest' & warnings' & Hloop & Hpts & Hwarn).
        -- lia.
        -- exact Hrest'_nul.
        -- now apply points_at_app.
        -- exists found', manifest', warnings'.
           repeat split; [|exact Hpts|exact Hwarn].
           rewrite <- Hloop. f_equal.
           ++ now rewrite <- !app_assoc.
           ++ rewrite !length_app. cbn [List.length]. lia.
           ++ rewrite !length_app. cbn [List.length]. lia.
Qed.

Lemma points_at_string (buf : list ascii) (found : option nat)
  (value : option (list ascii)) :
  points_at buf found value ->
  option_map (fun p => c_string (skipn p buf)) found = value.
Proof.
  unfold points_at. destruct found as [p|], value as [s|]; try tauto.
  intros (before & after & -> & <- & Hs). cbn [option_map].
  now rewrite skipn_length_app, c_string_app_NUL.
Qed.

(** X19: on a manifest text without NUL, [get_class_path_attr] returns a
    pointer to the value of the last line that starts with
    [Class-Path: ] and ends in a newline, and NULL when there is no such
    line. *)
Theorem class_path_attr_is_last_line (manifest : list ascii) :
  Forall (fun c => c <> NUL) manifest ->
  returned_string (get_class_path_attr manifest (List.length manifest))
  = last_class_path (fst (lines_of manifest)) None.
Proof.
  intros Hnul.
  destruct (class_path_loop_spec (List.length manifest) manifest [] None None
              0 (le_n _) Hnul I)
    as (found & buf & warnings & Hloop & Hpts & _).
  unfold get_class_path_attr, returned_string.
  cbn [app List.length Nat.add] in Hloop. rewrite Hloop. cbn [fst snd].
  now apply points_at_string.
Qed.

Lemma duplicate_warnings_seen (lines : list (list ascii)) :
  duplicate_warnings lines true
  = List.length (filter (starts_with tag) lines).
Proof.
  induction lines as [|line lines IH]; cbn [duplicate_warnings filter].
  - reflexivity.
  - destruct (starts_with tag line); cbn [List.length]; now rewrite IH.
Qed.

Lemma duplicate_warnings_unseen (lines : list (list ascii)) :
  duplicate_warnings lines false
  = Nat.pred (List.length (filter (starts_with tag) lines)).
Proof.
  induction lines as [|line lines IH]; cbn [duplicate_warnings filter].
  - reflexivity.
  - destruct (starts_with tag line); cbn [List.length Nat.pred Nat.add].
    + apply duplicate_warnings_seen.
    + exact IH.
Qed.

(** X20: on a manifest text without NUL, [get_class_path_attr] prints the
    warning of a duplicate once for every [Class-Path: ] line but the
    first. *)
Theorem class_path_duplicates_warned (manifest : list ascii) :
  Forall (fun c => c <> NUL) manifest ->
  snd (get_class_path_attr manifest (List.length manifest))
  = Nat.pred (List.length (class_path_lines manifest)).
Proof.
  intros Hnul.
  destruct (class_path_loop_spec (List.length manifest) manifest [] None None
              0 (le_n _) Hnul I)
    as (found & buf & warnings & Hloop & _ & Hwarn).
  unfold get_class_path_attr, class_path_lines.
  cbn [app List.length Nat.add] in Hloop. rewrite Hloop. cbn [snd].
  rewrite Hwarn. cbn [is_some Nat.add]. apply duplicate_warnings_unseen.
Qed.

Lemma lines_of_unterminated (text tail : list ascii) :
  Forall (fun c => c <> newline) tail ->
  fst (lines_of (text ++ tail)) = fst (lines_of text).
Proof.
  intros Htail. induction text as [|c text IH]; cbn [app lines_of].
  - now rewrite (lines_of_no_newline _ Htail).
  - destruct (lines_of (text ++ tail)) as [lines rest].
    destruct (lines_of text) as [lines' rest']. cbn [fst] in IH. subst lines'.
    destruct (Ascii.eqb c newline); [reflexivity|].
    now destruct lines.
Qed.

(** X21: text behind the last newline of a manifest is not looked at: with
    or without it, the same value is returned. *)
Theorem class_path_unterminated_ignored (manifest tail : list ascii) :
  Forall (fun c => c <> NUL) manifest ->
  Forall (fun c => c <> NUL) tail ->
  Forall (fun c => c <> newline) tail ->
  returned_string
    (get_class_path_attr (manifest ++ tail) (List.length (manifest ++ tail)))
  = returned_string (get_class_path_attr manifest (List.length manifest)).
Proof.
  intros Hm Ht Hnl.
  rewrite !class_path_attr_is_last_line;
    [|exact Hm|apply Forall_app; now split].
  now rewrite lines_of_unterminated.
Qed.

(** * The libraries a manifest names *)

Lemma fields_no_space (s : list ascii) :
  Forall (fun c => c <> space) s -> fields s = [s].
Proof.
  induction 1 as [|x s Hx _ IH]; cbn [fields].
  - reflexivity.
  - apply Ascii.eqb_neq in Hx. now rewrite Hx, IH.
Qed.

Lemma fields_field (field rest : list ascii) :
  Forall (fun c => c <> space) field ->
  fields (field ++ space :: rest) = field :: fields rest.
Proof.
  induction 1 as [|x field Hx _ IH]; cbn [app fields].
  - now rewrite Ascii.eqb_refl.
  - apply Ascii.eqb_neq in Hx. now rewrite Hx, IH.
Qed.

Section SplitFacts.

Variable dir_name : list ascii.
Variable dir_len : nat.

Lemma split_loop_end (fuel : nat) (buf : list ascii) (end_ : nat)
  (libnames : list (list ascii)) :
  split_loop dir_name dir_len fuel buf end_ end_ libnames = libnames.
Proof. destruct fuel; cbn [split_loop]; [|rewrite Nat.ltb_irrefl]; reflexivity. Qed.

Lemma libname_of (name rest : list ascii) :
  Forall (fun c => c <> NUL) name ->
  rest = [] \/ (exists t, rest = NUL :: t) ->
  strncat (strncat [] dir_name dir_len) (name ++ rest) (List.length name)
  = firstn dir_len (c_string dir_name) ++ name.
Proof.
  intros Hname Hrest. unfold strncat at 1.
  assert (Hstr : c_string (name ++ rest) = name).
  { destruct Hrest as [->|[t ->]].
    - rewrite app_nil_r. now apply c_string_all.
    - now apply c_string_app_NUL. }
  rewrite Hstr, firstn_all. f_equal.
  unfold strncat. cbn [c_string strlen firstn app].
  apply c_string_all.
  pose proof (c_string_no_NUL dir_name) as H.
  rewrite <- (firstn_skipn dir_len (c_string dir_name)) in H.
  apply Forall_app in H. tauto.
Qed.

Lemma split_loop_spec (fuel : nat) :
  forall (rest done tail : list ascii) (libnames : list (list ascii)),
    (List.length rest <= fuel)%nat ->
    Forall (fun c => c <> NUL) rest ->
    tail = [] \/ (exists t, tail = NUL :: t) ->
    split_loop dir_name dir_len fuel (done ++ rest ++ tail)
      (List.length done + List.length rest) (List.length done) libnames
    = libnames
      ++ map (app (firstn dir_len (c_string dir_name)))
             (filter nonempty (fields rest)).
Proof.
  induction fuel as [|fuel IH];
    intros rest done tail libnames Hfuel Hnul Htail; cbn [split_loop].
  - destruct rest as [|x rest]; [|cbn in Hfuel; lia].
    cbn. now rewrite app_nil_r.
  - destruct rest as [|x rest'] eqn:Hrest.
    { replace (List.length done <? List.length done + List.length [])%nat
        with false by (symmetry; apply Nat.ltb_ge; cbn; lia).
      cbn. now rewrite app_nil_r. }
    assert (Hlen : (0 < List.length rest)%nat) by (subst rest; cbn; lia).
    rewrite <- Hrest in *. clear Hrest x rest'.
    replace (List.length done <? List.length done + List.length rest)%nat
      with true by (symmetry; apply Nat.ltb_lt; lia).
    rewrite skipn_length_app.
    destruct (first_occurrence space rest)
      as [Hnone|(field & rest' & -> & Hfield)].
    + (* the last name *)
      assert (Hchr : strchr (rest ++ tail) space = None).
      { destruct Htail as [->|[t ->]].
        - rewrite app_nil_r. now apply strchr_none.
        - apply strchr_none_NUL; [discriminate|exact Hnone]. }
      rewrite Hchr, skipn_length_app.
      assert (Hstrlen : strlen (rest ++ tail) = List.length rest).
      { destruct Htail as [->|[t ->]].
        - rewrite app_nil_r. now apply strlen_all.
        - now apply strlen_app_NUL. }
      rewrite Hstrlen.
      replace (0 <? List.length rest)%nat with true
        by (symmetry; now apply Nat.ltb_lt).
      rewrite split_loop_end, (libname_of _ _ Hnul Htail).
      rewrite (fields_no_space _ Hnone). cbn [filter].
      destruct rest; [cbn in Hlen; lia|]. reflexivity.
    + (* a name that ends at a space *)
      apply Forall_app in Hnul. destruct Hnul as [Hfield_nul Hrest_nul].
      inversion Hrest_nul as [|? ? _ Hrest'_nul]; subst.
      rewrite <- app_assoc. cbn [app].
      rewrite (strchr_some _ _ _ Hfield Hfield_nul).
      rewrite store_middle, skipn_length_app.
      rewrite (strlen_app_NUL _ _ Hfield_nul).
      rewrite length_app in Hfuel. cbn [List.length] in Hfuel.
      rewrite (fields_field _ _ Hfield). cbn [filter].
      assert (Hstep : forall libs,
                 split_loop dir_name dir_len fuel
                   (done ++ field ++ NUL :: rest' ++ tail)
                   (List.length done
                    + List.length (field ++ space :: rest'))
                   (List.length done + List.length field + 1) libs
                 = libs
                   ++ map (app (firstn dir_len (c_string dir_name)))
                        (filter nonempty (fields rest'))).
      { intros libs.
        rewrite <- (IH rest' (done ++ field ++ [NUL]) tail libs);
          [|lia|exact Hrest'_nul|exact Htail].
        f_equal.
        - now rewrite <- !app_assoc.
        - rewrite !length_app. cbn [List.length]. lia.
        - rewrite !length_app. cbn [List.length]. lia. }
      rewrite Hstep.
      rewrite (libname_of field (NUL :: rest' ++ tail) Hfield_nul)
        by (right; now exists (rest' ++ tail)).
      destruct field as [|y field]; cbn [List.length nonempty].
      * reflexivity.
      * replace (0 <? S (List.length field))%nat with true by reflexivity.
        cbn [map]. now rewrite <- app_assoc.
Qed.

End SplitFacts.

(** X22: for a manifest text without NUL, [process_jar_manifest] ends in
    [vm_exit(1)] when the text contains [Extension-List:]; otherwise it
    passes on, in order, the names between the spaces of the value of the
    last [Class-Path: ] line, leaving out empty ones and putting the
    directory of the jar before each; with no such line it passes on
    nothing. *)
Theorem manifest_libraries (entry_name manifest : list ascii) (sep : ascii) :
  Forall (fun c => c <> NUL) manifest ->
  process_jar_manifest entry_name sep (Some manifest)
  = if occurs_in (list_ascii_of_string "Extension-List:") manifest
    then vm_exit 1
    else returned (libraries_named entry_name sep manifest).
Proof.
  intros Hnul. unfold process_jar_manifest, strstr_found, libraries_named.
  rewrite (c_string_all _ Hnul), (strlen_all _ Hnul).
  change (c_string (list_ascii_of_string "Extension-List:"))
    with (list_ascii_of_string "Extension-List:").
  destruct (occurs_in _ manifest); [reflexivity|].
  destruct (class_path_loop_spec (List.length manifest) manifest [] None None
              0 (le_n _) Hnul I)
    as (found & buf & warnings & Hloop & Hpts & _).
  unfold get_class_path_attr.
  cbn [app List.length Nat.add] in Hloop. rewrite Hloop.
  unfold points_at in Hpts.
  destruct found as [p|],
    (last_class_path (fst (lines_of manifest)) None) as [value|];
    try tauto.
  destruct Hpts as (before & after & -> & <- & Hvalue).
  rewrite skipn_length_app, (strlen_app_NUL _ _ Hvalue).
  destruct value as [|v value]; [reflexivity|].
  replace (0 <? List.length (v :: value))%nat with true by reflexivity.
  rewrite split_loop_spec;
    [|apply le_n|exact Hvalue|right; now exists after].
  cbn [app]. unfold directory_of.
  now destruct (strrchr entry_name sep).
Qed.

End ManifestFacts.

Lemma class_path_attr_is_last_line_witness :
  Manifest.returned_string
    (Manifest.get_class_path_attr Manifest.sample
       (List.length Manifest.sample))
  = Some (list_ascii_of_string "a.jar  lib/b.jar").
Proof.
  apply (class_path_attr_is_last_line Manifest.sample).
  repeat (constructor; [discriminate|]). constructor.
Defined.

Lemma class_path_duplicates_warned_witness :
  snd (Manifest.get_class_path_attr Manifest.sample_twice
         (List.length Manifest.sample_twice))
  = 1%nat.
Proof.
  apply (class_path_duplicates_warned Manifest.sample_twice).
  repeat (constructor; [discriminate|]). constructor.
Defined.

Lemma class_path_unterminated_ignored_witness :
  Manifest.returned_string
    (Manifest.get_class_path_attr
       (Manifest.sample ++ list_ascii_of_string "Class-Path: c.jar")
       (List.length
          (Manifest.sample ++ list_ascii_of_string "Class-Path: c.jar")))
  = Manifest.returned_string
      (Manifest.get_class_path_attr Manifest.sample
         (List.length Manifest.sample)).
Proof.
  apply (class_path_unterminated_ignored Manifest.sample
           (list_ascii_of_string "Class-Path: c.jar"));
    repeat (constructor; [discriminate|]); constructor.
Defined.

Lemma manifest_libraries_witness :
  Manifest.process_jar_manifest (list_ascii_of_string "/opt/app/main.jar")
    "/"%char (Some Manifest.sample)
  = Manifest.returned
      [list_ascii_of_string "/opt/app/a.jar";
       list_ascii_of_string "/opt/app/lib/b.jar"].
Proof.
  apply (manifest_libraries (list_ascii_of_string "/opt/app/main.jar")
           Manifest.sample "/"%char).
  repeat (constructor; [discriminate|]). constructor.
Defined.

(** * Rounds of the two loops *)

(** The rounds given to the loop of [get_class_path_attr] are enough:
    once there are as many as characters left before [end_], more change
    nothing. *)
Lemma class_path_loop_rounds (fuel : nat) :
  forall (fuel' : nat) (manifest : list ascii) (end_ line_start : nat)
         (found : option nat) (warnings : nat),
    (end_ - line_start <= fuel)%nat ->
    (end_ - line_start <= fuel')%nat ->
    Manifest.class_path_loop fuel manifest end_ line_start found warnings
    = Manifest.class_path_loop fuel' manifest end_ line_start found warnings.
Proof.
  induction fuel as [|fuel IH];
    intros fuel' manifest end_ line_start found warnings Hfuel Hfuel'.
  - destruct fuel' as [|fuel']; cbn [Manifest.class_path_loop];
      [reflexivity|].
    replace (line_start <? end_)%nat with false
      by (symmetry; apply Nat.ltb_ge; lia).
    reflexivity.
  - destruct fuel' as [|fuel']; cbn [Manifest.class_path_loop].
    + replace (line_start <? end_)%nat with false
        by (symmetry; apply Nat.ltb_ge; lia).
      reflexivity.
    + destruct (line_start <? end_)%nat eqn:Hlt; [|reflexivity].
      apply Nat.ltb_lt in Hlt.
      destruct (strchr _ _) as [k|]; [|reflexivity].
      destruct (strncmp_eq _ _ _); apply IH; lia.
Qed.

(** The same of the loop that splits the attribute. *)
Lemma split_loop_rounds (dir_name : list ascii) (dir_len fuel : nat) :
  forall (fuel' : nat) (buf : list ascii) (end_ file_start : nat)
         (libnames : list (list ascii)),
    (end_ - file_start <= fuel)%nat ->
    (end_ - file_start <= fuel')%nat ->
    Manifest.split_loop dir_name dir_len fuel buf end_ file_start libnames
    = Manifest.split_loop dir_name dir_len fuel' buf end_ file_start libnames.
Proof.
  induction fuel as [|fuel IH];
    intros fuel' buf end_ file_start libnames Hfuel Hfuel'.
  - destruct fuel' as [|fuel']; cbn [Manifest.split_loop]; [reflexivity|].
    replace (file_start <? end_)%nat with false
      by (symmetry; apply Nat.ltb_ge; lia).
    reflexivity.
  - destruct fuel' as [|fuel']; cbn [Manifest.split_loop].
    + replace (file_start <? end_)%nat with false
        by (symmetry; apply Nat.ltb_ge; lia).
      reflexivity.
    + destruct (file_start <? end_)%nat eqn:Hlt; [|reflexivity].
      apply Nat.ltb_lt in Hlt.
      destruct (strchr _ _) as [k|]; apply IH; lia.
Qed.

(** * The assertion in [get_class_path_attr] *)

Lemma strchr_behind (c : ascii) (before : list ascii) :
  Forall (fun x => x <> c) before ->
  forall (rest : list ascii) (k : nat),
    strchr (before ++ rest) c = Some k -> (List.length before <= k)%nat.
Proof.
  induction 1 as [|x before Hx _ IH]; intros rest k;
    cbn [app strchr List.length].
  - lia.
  - apply Ascii.eqb_neq in Hx. rewrite Hx.
    destruct (Ascii.eqb x NUL); [discriminate|].
    destruct (strchr (before ++ rest) c) as [k'|] eqn:Hk; [|discriminate].
    intros H. inversion H; subst. apply IH in Hk. lia.
Qed.

(** X23: the assertion [found <= line_end] of [get_class_path_attr] holds
    whenever it is reached, whatever the buffer holds: a line that starts
    with the tag has its newline behind the tag. *)
Theorem class_path_sanity_assertion (manifest : list ascii)
  (line_start k : nat) :
  strchr (skipn line_start manifest) Manifest.newline = Some k ->
  strncmp_eq Manifest.tag (skipn line_start manifest) Manifest.tag_len
  = true ->
  let line_end := (line_start + k)%nat in
  let found := (line_start + Manifest.tag_len)%nat in
  (found <= line_end)%nat.
Proof.
  intros Hchr Hcmp line_end found. unfold line_end, found.
  rewrite tag_len_length in *.
  rewrite (strncmp_eq_starts_with _ _ tag_no_NUL) in Hcmp.
  apply starts_with_split in Hcmp. rewrite Hcmp in Hchr.
  apply (strchr_behind _ _ tag_no_newline) in Hchr. lia.
Qed.

Lemma class_path_sanity_assertion_witness :
  (22 + Manifest.tag_len <= 22 + 28)%nat.
Proof.
  apply (class_path_sanity_assertion Manifest.sample 22 28); reflexivity.
Defined.
